(** * bedbuild: the subprocess runner, the file fetcher and the exit helper

    A shallow embedding of [src/index.ts].  The asynchronous helpers
    ([spawn], [downloadFile]) register listeners on an event emitter and
    settle one promise; they are modelled as a handler that is folded over
    the sequence of events the emitter delivers.  The synchronous helpers
    ([exit], [assertHasTagName], [getLatestGitTag], [getFabrikateVersion])
    are modelled in a small monad that threads the console and stops at
    [process.exit]. *)

From Stdlib Require Import ZArith NArith PArith List String Ascii Bool Lia.
From Stdlib Require Import SpecFloat DecimalString DecimalN.
Import ListNotations.

Local Open Scope Z_scope.
Set Warnings "-register-all".

(** ** JavaScript numbers

    A JavaScript number is an IEEE 754 binary64 value.  The Standard
    Library's [spec_float] is that format once the precision is 53 bits and
    the largest exponent 1024; its operations round to nearest, ties to
    even, as the language's [+], [*] and [/] do. *)

Module Num.

Definition prec : Z := 53.
Definition emax : Z := 1024.

Definition number : Type := spec_float.

Definition nan : number := S754_nan.

(** The number nearest to an integer: what [Number] gives for a decimal
    literal, and what [chunk.length] is. *)
Definition of_Z (n : Z) : number := binary_normalize prec emax n 0 false.

Definition of_nat (n : nat) : number := of_Z (Z.of_nat n).

(** The normal number of value [n], for [0 < n < 2^53]: 53 bits of
    mantissa, the leading one set. *)
Definition normal (n : Z) : number :=
  S754_finite false (Z.to_pos (n * 2 ^ (52 - Z.log2 n))) (Z.log2 n - 52).

(** The number of value [n], for [0 <= n < 2^53]. *)
Definition exact (n : Z) : number :=
  if n =? 0 then S754_zero false else normal n.

Definition add : number -> number -> number := SFadd prec emax.
Definition mul : number -> number -> number := SFmul prec emax.
Definition div : number -> number -> number := SFdiv prec emax.

Definition eqb (x y : number) : bool :=
  match x, y with
  | S754_zero a, S754_zero b => Bool.eqb a b
  | S754_infinity a, S754_infinity b => Bool.eqb a b
  | S754_nan, S754_nan => true
  | S754_finite a m e, S754_finite b m' e' =>
      Bool.eqb a b && Pos.eqb m m' && Z.eqb e e'
  | _, _ => false
  end.

(** Decimal digits of a natural number, without sign: ["0"], ["17"]. *)
Definition dec (n : Z) : string :=
  NilZero.string_of_uint (N.to_uint (Z.to_N n)).

Fixpoint zeros (n : nat) : string :=
  match n with
  | O => EmptyString
  | S k => String "0" (zeros k)
  end.

(** [Number::toString] at a finite magnitude of at least 10^21, whose exact
    value is the integer [X]: the shortest digit string [s] (of [k] digits)
    and exponent [n] such that [s * 10^(n-k)] reads back as [x]; among
    several [s] of that length the one nearest to [X], the even one on a
    tie.  The result is written in exponent form. *)
Definition shortest_candidates (x : number) (X : Z) (d k : Z) : list (Z * Z) :=
  flat_map
    (fun p =>
       flat_map
         (fun s =>
            if (10 ^ (k - 1) <=? s) && (s <? 10 ^ k) && (0 <=? p)
               && eqb (of_Z (s * 10 ^ p)) x
            then [(s, p)] else [])
         [X / 10 ^ p; X / 10 ^ p + 1])
    [d - k; d - k + 1].

Definition closer (X : Z) (a b : Z * Z) : Z * Z :=
  let da := Z.abs (fst a * 10 ^ snd a - X) in
  let db := Z.abs (fst b * 10 ^ snd b - X) in
  if da <? db then a
  else if db <? da then b
  else if Z.even (fst a) then a else b.

Definition nearest (X : Z) (cs : list (Z * Z)) : option (Z * Z) :=
  match cs with
  | [] => None
  | c :: rest => Some (fold_left (closer X) rest c)
  end.

Fixpoint shortest_from (x : number) (X d : Z) (k : Z) (fuel : nat) : Z * Z * Z :=
  match fuel with
  | O => (X, 0, d)
  | S fuel' =>
      match nearest X (shortest_candidates x X d k) with
      | Some (s, p) => (s, p, k)
      | None => shortest_from x X d (k + 1) fuel'
      end
  end.

Definition exponent_form (s p k : Z) : string :=
  let digits := dec s in
  let e := dec (p + k - 1) in
  match digits with
  | EmptyString => EmptyString
  | String c EmptyString => String c ("e+" ++ e)
  | String c rest => String c ("." ++ rest ++ "e+" ++ e)
  end.

Definition toString_large (x : number) (X : Z) : string :=
  let d := Z.of_nat (String.length (dec X)) in
  let '(s, p, k) := shortest_from x X d 1 17 in
  exponent_form s p k.

(** [n] with [n / 10^f] nearest to [m * 2^e], the larger on a tie. *)
Definition scaled_round (m : positive) (e f : Z) : Z :=
  match e with
  | Zneg p => (2 * (Zpos m * 10 ^ f) + 2 ^ Zpos p) / (2 * 2 ^ Zpos p)
  | _ => Zpos m * 2 ^ e * 10 ^ f
  end.

(** Is [m * 2^e] at least 10^21? *)
Definition at_least_1e21 (m : positive) (e : Z) : bool :=
  match e with
  | Zneg p => 10 ^ 21 * 2 ^ Zpos p <=? Zpos m
  | _ => 10 ^ 21 <=? Zpos m * 2 ^ e
  end.

(** Digits of [n] with a point before the last [f] of them. *)
Definition fixed_digits (n f : Z) : string :=
  let m := dec n in
  if f =? 0 then m
  else
    let k := String.length m in
    let m' := if (k <=? Z.to_nat f)%nat
              then (zeros (Z.to_nat f + 1 - k) ++ m)%string else m in
    let k' := String.length m' in
    (substring 0 (k' - Z.to_nat f) m' ++ "."
       ++ substring (k' - Z.to_nat f) (Z.to_nat f) m')%string.

End Num.

(** ** JavaScript values, exceptions and the builtins the helpers call *)

Module JS.

Inductive error_kind := PlainError | TypeError | RangeError.

(** An [Error] object: its constructor and its [message]. *)
Record exn := mkExn { kind : error_kind; message : string }.

(** How a synchronous piece of code finishes. *)
Inductive completion (A : Type) :=
| Normal (a : A)
| Throw (e : exn).
Arguments Normal {A} a.
Arguments Throw {A} e.

Definition bind {A B} (c : completion A) (k : A -> completion B) : completion B :=
  match c with
  | Normal a => k a
  | Throw e => Throw e
  end.

(** The digits [toFixed] produces once its argument is accepted: ["NaN"]
    and the infinities by name; exponent form from 10^21 on; otherwise the
    nearest decimal with [fractionDigits] digits after the point. *)
Definition fixed_text (x : Num.number) (fractionDigits : Z) : string :=
  match x with
  | S754_nan => "NaN"
  | S754_infinity false => "Infinity"
  | S754_infinity true => "-Infinity"
  | S754_zero _ => Num.fixed_digits 0 fractionDigits
  | S754_finite s m e =>
      (if s then "-" else "")
        ++ (if Num.at_least_1e21 m e
            then Num.toString_large (S754_finite false m e) (Zpos m * 2 ^ e)
            else Num.fixed_digits (Num.scaled_round m e fractionDigits) fractionDigits)
  end.

(** [Number.prototype.toFixed]: a [RangeError] unless the digit count is
    between 0 and 100. *)
Definition toFixed (x : Num.number) (fractionDigits : Z) : completion string :=
  if (fractionDigits <? 0) || (100 <? fractionDigits)
  then Throw (mkExn RangeError "toFixed() digits argument must be between 0 and 100")
  else Normal (fixed_text x fractionDigits).

(** A value as a response body or an argument of type [unknown] can be.
    An object lists its own properties, the binding in force first. *)
Inductive value :=
| VUndefined
| VNull
| VBoolean (b : bool)
| VNumber (x : Num.number)
| VString (s : string)
| VArray (items : list value)
| VObject (props : list (string * value)).

Definition typeof (v : value) : string :=
  match v with
  | VUndefined => "undefined"
  | VNull => "object"
  | VBoolean _ => "boolean"
  | VNumber _ => "number"
  | VString _ => "string"
  | VArray _ => "object"
  | VObject _ => "object"
  end.

Fixpoint lookup (key : string) (props : list (string * value)) : value :=
  match props with
  | [] => VUndefined
  | (k, v) :: rest => if String.eqb k key then v else lookup key rest
  end.

(** The property read [v.tag_name]: reading a property of [null] or
    [undefined] throws a [TypeError]; booleans, numbers, strings and arrays
    have no property of that name. *)
Definition tag_name_of (v : value) : completion value :=
  match v with
  | VUndefined =>
      Throw (mkExn TypeError "Cannot read property 'tag_name' of undefined")
  | VNull =>
      Throw (mkExn TypeError "Cannot read property 'tag_name' of null")
  | VObject props => Normal (lookup "tag_name" props)
  | _ => Normal VUndefined
  end.

End JS.

(** ** Promises: settled once, later calls of [resolve] or [reject] ignored *)

Module Promise.

Inductive promise (A : Type) :=
| Pending
| Resolved (a : A)
| Rejected (e : JS.exn).
Arguments Pending {A}.
Arguments Resolved {A} a.
Arguments Rejected {A} e.

Definition resolve {A} (a : A) (p : promise A) : promise A :=
  match p with
  | Pending => Resolved a
  | _ => p
  end.

Definition reject {A} (e : JS.exn) (p : promise A) : promise A :=
  match p with
  | Pending => Rejected e
  | _ => p
  end.

End Promise.

(** ** [spawn]: the subprocess runner

    [child_process.spawn] returns a handle that emits ["data"] on its two
    output streams, ["error"] and ["exit"].  A chunk is taken as the text
    that [stdout + data] appends. *)

Module Spawn.

Import Promise.

Inductive event :=
| StdoutData (data : string)
| StderrData (data : string)
| ErrorEvent (err : JS.exn)
| ExitEvent (exitCode : option Z).

Record result := mkResult {
  stdout : string;
  stderr : string;
  stdCombined : string;
  code : Z
}.

(** The four variables of the closure and the promise under construction. *)
Record state := mkState {
  v_stdout : string;
  v_stderr : string;
  v_stdCombined : string;
  v_code : Z;
  settled : promise result
}.

Definition init : state := mkState "" "" "" 0 Pending.

Definition on_event (st : state) (ev : event) : state :=
  match ev with
  | StdoutData data =>
      mkState (v_stdout st ++ data) (v_stderr st) (v_stdCombined st ++ data)
        (v_code st) (settled st)
  | StderrData data =>
      mkState (v_stdout st) (v_stderr st ++ data) (v_stdCombined st ++ data)
        (v_code st) (settled st)
  | ErrorEvent err =>
      mkState (v_stdout st) (v_stderr st) (v_stdCombined st) (v_code st)
        (reject err (settled st))
  | ExitEvent exitCode =>
      let code := match exitCode with Some c => c | None => v_code st end in
      mkState (v_stdout st) (v_stderr st) (v_stdCombined st) code
        (resolve (mkResult (v_stdout st) (v_stderr st) (v_stdCombined st) code)
           (settled st))
  end.

Definition run (st : state) (tr : list event) : state := fold_left on_event tr st.

(** The promise [spawn] returns, after the handle has emitted [tr]. *)
Definition spawn (tr : list event) : promise result := settled (run init tr).

Definition is_data (ev : event) : bool :=
  match ev with
  | StdoutData _ | StderrData _ => true
  | _ => false
  end.

(** The handle reports a launch error: an ["error"] event, no ["exit"]
    before it. *)
Definition launch_error (tr : list event) (err : JS.exn) : Prop :=
  exists pre post, tr = (pre ++ ErrorEvent err :: post)%list /\ forallb is_data pre = true.

(** The process started and reports its termination, no ["error"] before. *)
Definition exits_with (tr : list event) (exitCode : option Z) : Prop :=
  exists pre post, tr = (pre ++ ExitEvent exitCode :: post)%list /\ forallb is_data pre = true.

Fixpoint stdout_chunks (tr : list event) : list string :=
  match tr with
  | [] => []
  | StdoutData d :: rest => d :: stdout_chunks rest
  | _ :: rest => stdout_chunks rest
  end.

Fixpoint stderr_chunks (tr : list event) : list string :=
  match tr with
  | [] => []
  | StderrData d :: rest => d :: stderr_chunks rest
  | _ :: rest => stderr_chunks rest
  end.

(** The chunks of both streams, in the order received. *)
Fixpoint all_chunks (tr : list event) : list string :=
  match tr with
  | [] => []
  | StdoutData d :: rest => d :: all_chunks rest
  | StderrData d :: rest => d :: all_chunks rest
  | _ :: rest => all_chunks rest
  end.

Definition join (chunks : list string) : string := String.concat "" chunks.

(** Every chunk the streams deliver during the run is in the result. *)
Definition result_holds_every_chunk : Prop :=
  forall tr r,
    spawn tr = Resolved r ->
    stdout r = join (stdout_chunks tr)
    /\ stderr r = join (stderr_chunks tr)
    /\ stdCombined r = join (all_chunks tr).

End Spawn.

(** ** [downloadFile]: the file fetcher

    [request.get(url)] is an emitter of ["response"], ["data"], ["end"],
    ["complete"] and ["error"]; [pipe] forwards each chunk to the write
    stream opened on the destination, ends the stream at ["end"] and
    detaches at ["end"] and at ["error"].  The write stream is an emitter
    too, and its ["error"] has no listener.  A chunk is a [Buffer].  Node's HTTP parser delivers a Content-Length only when it is
    a run of decimal digits, so the header is an optional [Decimal.uint]:
    [None] is the [undefined] that reading an absent header gives. *)

Module Download.

Import JS Promise.

Record response := mkResponse {
  statusCode : Z;
  content_length : option Decimal.uint
}.

(** What the process is handed while a download runs: the events of the
    request, and [WriteError] for an ["error"] of the write stream the
    request is piped to. *)
Inductive event :=
| Response (resp : response)
| Data (chunk : list Byte.byte)
| End
| Complete
| ErrorEvent (err : exn)
| WriteError (err : exn).

(** [Number(response.headers["content-length"])]. *)
Definition Number (header : option Decimal.uint) : Num.number :=
  match header with
  | None => Num.nan
  | Some digits => Num.of_Z (Z.of_N (N.of_uint digits))
  end.

(** The two variables of [downloadFile], the promise, the lines logged,
    and the state of [fabReq.pipe(fs.createWriteStream(to))]: the bytes
    handed to the write stream, whether the stream has been ended, whether
    the pipe still forwards chunks, and the exception, if any, that no
    listener caught. *)
Record state := mkState {
  contentLength : Num.number;
  downloaded : Num.number;
  dest : list Byte.byte;
  dest_ended : bool;
  piped : bool;
  crashed : option exn;
  info : list string;
  settled : promise unit
}.

(** [let contentLength = 0; let downloaded = 0;], the destination opened
    for writing and piped to, nothing logged yet. *)
Definition init : state :=
  mkState (Num.of_Z 0) (Num.of_Z 0) [] false true None [] Pending.

(** The line the ["data"] listener logs. *)
Definition status_line (downloadPercentage : string) : string :=
  "Download status: " ++ downloadPercentage ++ "%".

(** The listeners of [downloadFile], and what [pipe] does with the same
    event.  The pipe forwards a chunk to the write stream until the request
    emits ["end"] (it then ends the stream) or ["error"]; from then on it
    is detached, while the listeners of [downloadFile] stay.  Nothing
    listens to ["error"] on the write stream: when it fails the exception
    is uncaught, the process is gone and no later event is handled. *)
Definition on_event (st : state) (ev : event) : completion state :=
  match crashed st with
  | Some _ => Normal st
  | None =>
      match ev with
      | Response resp =>
          Normal (mkState (Number (content_length resp)) (downloaded st) (dest st)
                    (dest_ended st) (piped st) None (info st) (settled st))
      | Data chunk =>
          let written := if piped st then (dest st ++ chunk)%list else dest st in
          let downloaded' := Num.add (downloaded st) (Num.of_nat (List.length chunk)) in
          bind (toFixed (Num.mul (Num.div downloaded' (contentLength st)) (Num.of_Z 100)) 2)
            (fun downloadPercentage =>
               Normal (mkState (contentLength st) downloaded' written (dest_ended st)
                         (piped st) None
                         (info st ++ [status_line downloadPercentage])
                         (settled st)))
      | End =>
          Normal (mkState (contentLength st) (downloaded st) (dest st)
                    (dest_ended st || piped st) false None (info st) (settled st))
      | Complete =>
          Normal (mkState (contentLength st) (downloaded st) (dest st) (dest_ended st)
                    (piped st) None (info st) (resolve tt (settled st)))
      | ErrorEvent err =>
          Normal (mkState (contentLength st) (downloaded st) (dest st) (dest_ended st)
                    false None (info st) (reject err (settled st)))
      | WriteError err =>
          Normal (mkState (contentLength st) (downloaded st) (dest st) (dest_ended st)
                    false (Some err) (info st) (settled st))
      end
  end.

(** A listener that throws ends the run: the exception is uncaught. *)
Fixpoint run (st : state) (tr : list event) : completion state :=
  match tr with
  | [] => Normal st
  | ev :: rest => bind (on_event st ev) (fun st' => run st' rest)
  end.

Definition downloadFile (tr : list event) : completion state := run init tr.

(** The events after which the call has its outcome: the promise is
    settled, or the process has been ended by the write stream's error. *)
Definition settles (ev : event) : bool :=
  match ev with
  | Complete | ErrorEvent _ | WriteError _ => true
  | _ => false
  end.

Definition total_length (chunks : list (list Byte.byte)) : nat :=
  List.length (List.concat chunks).

(** The request emits ["complete"], with no ["error"] before it, of the
    request or of the write stream. *)
Definition completes (tr : list event) : Prop :=
  exists pre post,
    tr = (pre ++ Complete :: post)%list
    /\ forallb (fun ev => negb (settles ev)) pre = true.

End Download.

(** ** The console, [process.exit] and [exit] *)

Module Process.

Import JS.

(** What a console call is given: a string or an [Error] object. *)
Inductive printed :=
| PText (s : string)
| PError (e : exn).

Record console := mkConsole {
  info_stream : list printed;
  error_stream : list printed
}.

Inductive outcome (A : Type) :=
| Returned (a : A)
| Thrown (e : exn)
| Exited (code : Z).
Arguments Returned {A} a.
Arguments Thrown {A} e.
Arguments Exited {A} code.

Definition proc (A : Type) : Type := console -> console * outcome A.

Definition ret {A} (a : A) : proc A := fun c => (c, Returned a).

Definition bind {A B} (m : proc A) (k : A -> proc B) : proc B :=
  fun c =>
    match m c with
    | (c', Returned a) => k a c'
    | (c', Thrown e) => (c', Thrown e)
    | (c', Exited code) => (c', Exited code)
    end.

Definition catch {A} (m : proc A) (handler : exn -> proc A) : proc A :=
  fun c =>
    match m c with
    | (c', Thrown e) => handler e c'
    | other => other
    end.

Definition lift {A} (r : completion A) : proc A :=
  fun c =>
    match r with
    | Normal a => (c, Returned a)
    | Throw e => (c, Thrown e)
    end.

Definition console_info (p : printed) : proc unit :=
  fun c => (mkConsole (info_stream c ++ [p]) (error_stream c), Returned tt).

Definition console_error (p : printed) : proc unit :=
  fun c => (mkConsole (info_stream c) (error_stream c ++ [p]), Returned tt).

Definition process_exit {A} (code : Z) : proc A := fun c => (c, Exited code).

(** The optional argument [message?: string | Error]; [None] is [undefined]. *)
Definition message_arg : Type := option (string + exn).

(** The test [if (message)]: [undefined] and the empty string are falsy. *)
Definition truthy (message : message_arg) : bool :=
  match message with
  | None => false
  | Some (inl s) => negb (String.eqb s "")
  | Some (inr _) => true
  end.

Definition as_printed (m : string + exn) : printed :=
  match m with
  | inl s => PText s
  | inr e => PError e
  end.

(** [typeof message === "string" ? message : message.message]. *)
Definition message_text (m : string + exn) : string :=
  match m with
  | inl s => s
  | inr e => JS.message e
  end.

Definition exit {A} (code : Z) (message : message_arg) : proc A :=
  bind
    (if truthy message then
       match message with
       | Some m =>
           let messageString := message_text m in
           if code =? 0 then console_info (as_printed m)
           else console_error (PText messageString)
       | None => ret tt
       end
     else ret tt)
    (fun _ => process_exit code).

End Process.

(** ** Release lookups: [assertHasTagName], [getLatestGitTag],
    [getFabrikateVersion] *)

Module Releases.

Import JS Process.

Record axios_response := mkAxiosResponse {
  status : Z;
  data : value
}.

(** What [await axios.get(url)] gives: a response, or a rejection. *)
Inductive axios_result :=
| AxiosResolved (resp : axios_response)
| AxiosRejected (err : exn).

(** A status interpolated into a template string. *)
Definition show_status (n : Z) : string := NilZero.string_of_int (Z.to_int n).

Definition fabReleases : string :=
  "https://api.github.com/repos/microsoft/fabrikate/releases/latest".

Section WithEnvironment.

(** The text a template string gets for [JSON.stringify(value)]. *)
Variable JSON_stringify : value -> string.

(** The HTTP client. *)
Variable axios_get : string -> axios_result.

Definition await (r : axios_result) : proc axios_response :=
  match r with
  | AxiosResolved resp => ret resp
  | AxiosRejected err => fun c => (c, Thrown err)
  end.

(** The module-level validator (lines 30 to 38). *)
Definition assertHasTagName (v : value) : completion unit :=
  JS.bind
    (if String.eqb (typeof v) "object"
     then JS.bind (tag_name_of v) (fun t => Normal (String.eqb (typeof t) "string"))
     else Normal false)
    (fun ok =>
       if negb ok
       then Throw (mkExn PlainError ("Property tag_name not found in " ++ JSON_stringify v))
       else Normal tt).

Definition getLatestGitTag (releasesPage : string) : proc value :=
  bind (await (axios_get releasesPage)) (fun resp =>
  bind (if negb (status resp =? 200)
        then exit 1 (Some (inl ("Non-200 (" ++ show_status (status resp)
                                  ++ ") response returned from " ++ releasesPage)%string))
        else ret tt) (fun _ =>
  let data := data resp in
  bind (lift (assertHasTagName data)) (fun _ =>
  lift (tag_name_of data)))).

(** The validator declared inside [getFabrikateVersion] (lines 110 to 120). *)
Definition getFabrikateVersion_assertHasTagName (v : value) : completion unit :=
  JS.bind
    (if String.eqb (typeof v) "object"
     then JS.bind (tag_name_of v) (fun t => Normal (String.eqb (typeof t) "string"))
     else Normal false)
    (fun ok =>
       if negb ok
       then Throw (mkExn PlainError ("Property tag_name not found in " ++ JSON_stringify v))
       else Normal tt).

Definition getFabrikateVersion : proc value :=
  catch
    (bind (await (axios_get fabReleases)) (fun response =>
     bind (if negb (status response =? 200)
           then exit 1 (Some (inl ("Non-200 (" ++ show_status (status response)
                                     ++ ") response returned from " ++ fabReleases)%string))
           else ret tt) (fun _ =>
     let data := data response in
     bind (lift (getFabrikateVersion_assertHasTagName data)) (fun _ =>
     lift (tag_name_of data)))))
    (fun err =>
       bind (console_error (PError err)) (fun _ =>
       exit 1 (Some (inl ("Error fetching releases page from " ++ fabReleases)%string)))).

End WithEnvironment.

(** A non-null object whose [tag_name] is a string. *)
Definition has_string_tag_name (v : value) : Prop :=
  exists props s, v = VObject props /\ lookup "tag_name" props = VString s.

End Releases.

(** ** Strings as the commands use them: the regular expressions of the
    source, [replace] with a replacement string, [split] *)

Module Text.

(** The double quote character, which the pattern of the helm version
    check contains. *)
Definition dquote : ascii := "034"%char.

(** Case folding of the [i] flag, for characters below 128. *)
Definition upper (c : ascii) : ascii :=
  let n := nat_of_ascii c in
  if ((97 <=? n) && (n <=? 122))%nat then ascii_of_nat (n - 32) else c.

Definition ci_eqb (a b : ascii) : bool := Ascii.eqb (upper a) (upper b).

(** The pattern language the source's expressions need; every one of them
    carries the [i] flag, so a character matches up to case. *)
Inductive regex :=
| Eps
| Chr (c : ascii)
| Seq (a b : regex)
| Alt (a b : regex)
| Opt (a : regex).

Fixpoint lit (s : string) : regex :=
  match s with
  | EmptyString => Eps
  | String c s' => Seq (Chr c) (lit s')
  end.

(** Backtracking match at the head of [s]: alternatives left to right, an
    optional part tried first; [k] receives what is left of [s]. *)
Fixpoint match_at {A} (r : regex) (s : string) (k : string -> option A) : option A :=
  match r with
  | Eps => k s
  | Chr c =>
      match s with
      | String c' s' => if ci_eqb c c' then k s' else None
      | EmptyString => None
      end
  | Seq a b => match_at a s (fun s' => match_at b s' k)
  | Alt a b =>
      match match_at a s k with
      | Some x => Some x
      | None => match_at b s k
      end
  | Opt a =>
      match match_at a s k with
      | Some x => Some x
      | None => k s
      end
  end.

(** An expression anchored with [^]: the rest of [s] after the match. *)
Definition match_prefix (r : regex) (s : string) : option string := match_at r s Some.

(** [s.match(r)] as a condition, for an expression without anchor. *)
Fixpoint search (r : regex) (s : string) : bool :=
  match match_prefix r s with
  | Some _ => true
  | None =>
      match s with
      | EmptyString => false
      | String _ s' => search r s'
      end
  end.

(** The replacement-string patterns of [String.prototype.replace], for an
    expression without capture groups: [$$], [$&], [$`] and [$']. *)
Fixpoint substitute (template matched before after : string) : string :=
  match template with
  | EmptyString => EmptyString
  | String c t =>
      if Ascii.eqb c "$" then
        match t with
        | String d t' =>
            if Ascii.eqb d "$" then String "$" (substitute t' matched before after)
            else if Ascii.eqb d "&" then matched ++ substitute t' matched before after
            else if Ascii.eqb d "`" then before ++ substitute t' matched before after
            else if Ascii.eqb d "'" then after ++ substitute t' matched before after
            else String c (substitute t matched before after)
        | EmptyString => String c EmptyString
        end
      else String c (substitute t matched before after)
  end.

(** [s.replace(r, template)] for an anchored [r] without the [g] flag. *)
Definition replace_prefix (r : regex) (template s : string) : string :=
  match match_prefix r s with
  | None => s
  | Some rest =>
      let matched := substring 0 (String.length s - String.length rest) s in
      substitute template matched "" rest ++ rest
  end.

(** [s.split(sep)] for a one-character separator. *)
Fixpoint split (sep : ascii) (s : string) : list string :=
  match s with
  | EmptyString => [EmptyString]
  | String c s' =>
      if Ascii.eqb c sep then EmptyString :: split sep s'
      else
        match split sep s' with
        | piece :: pieces => String c piece :: pieces
        | [] => [String c EmptyString]
        end
  end.

(** [pieces.slice(-1)[0]]. *)
Definition last_piece (pieces : list string) : string := List.last pieces EmptyString.

Fixpoint contains_char (c : ascii) (s : string) : bool :=
  match s with
  | EmptyString => false
  | String c' s' => Ascii.eqb c c' || contains_char c s'
  end.

(** Two strings equal up to the case of their letters. *)
Fixpoint ci_equal (a b : string) : bool :=
  match a, b with
  | EmptyString, EmptyString => true
  | String x a', String y b' => ci_eqb x y && ci_equal a' b'
  | _, _ => false
  end.

(** [/^https?/i] *)
Definition re_http : regex := Seq (lit "http") (Opt (Chr "s")).

(** [/^https?:\/\//i] *)
Definition re_http_slashes : regex := Seq (lit "http") (Seq (Opt (Chr "s")) (lit "://")).

(** The pattern of the helm version check: [SemVer:], a double quote and
    [v2], with the flags [g] and [i]. *)
Definition re_semver_v2 : regex := Seq (lit "SemVer:") (Seq (Chr dquote) (lit "v2")).

Definition re_windows : regex := lit "windows".
Definition re_darwin : regex := lit "darwin".
Definition re_linux : regex := lit "linux".

(** [/(windows|msys)/i] *)
Definition re_windows_or_msys : regex := Alt (lit "windows") (lit "msys").

End Text.

(** ** [assertIsTruthyString] *)

Module Helpers.

Import JS.

(** The text a template string gets for a value; [display] is the
    engine's rendering of numbers, arrays and objects. *)
Definition template_text (display : value -> string) (v : value) : string :=
  match v with
  | VUndefined => "undefined"
  | VNull => "null"
  | VBoolean true => "true"
  | VBoolean false => "false"
  | VString s => s
  | other => display other
  end.

(** [!!value] for a string. *)
Definition nonempty (s : string) : bool := negb (String.eqb s "").

(** [!!value]. *)
Definition truthy_value (v : value) : bool :=
  match v with
  | VUndefined | VNull => false
  | VBoolean b => b
  | VNumber (S754_zero _) | VNumber S754_nan => false
  | VNumber _ => true
  | VString s => nonempty s
  | VArray _ | VObject _ => true
  end.

Definition assertIsTruthyString (display : value -> string) (v : value) : completion unit :=
  let isValid := String.eqb (typeof v) "string" && truthy_value v in
  if negb isValid
  then Throw (mkExn TypeError
                ("Expected a string of length greater than zero; Zero-length string or non-string provided: "
                   ++ template_text display v))
  else Normal tt.

End Helpers.

(** ** What a trace of the request holds *)

Module Fetch.

Import Download.

(** The chunks of the body, in the order received. *)
Fixpoint chunks_of (tr : list event) : list (list Byte.byte) :=
  match tr with
  | [] => []
  | Data chunk :: rest => chunk :: chunks_of rest
  | _ :: rest => chunks_of rest
  end.

(** The request emits ["error"], with no ["complete"] and no error of
    the write stream before it. *)
Definition fails_with (tr : list event) (err : JS.exn) : Prop :=
  exists pre post,
    tr = (pre ++ ErrorEvent err :: post)%list
    /\ forallb (fun ev => negb (settles ev)) pre = true.

(** The events up to, and without, the first one that [stop] holds of. *)
Fixpoint before (stop : event -> bool) (tr : list event) : list event :=
  match tr with
  | [] => []
  | ev :: rest => if stop ev then [] else ev :: before stop rest
  end.

Definition write_error (ev : event) : bool :=
  match ev with
  | WriteError _ => true
  | _ => false
  end.

(** The events at which the pipe stops forwarding chunks. *)
Definition detaches (ev : event) : bool :=
  match ev with
  | End | ErrorEvent _ | WriteError _ => true
  | _ => false
  end.

(** The write stream fails, the first time with [err]. *)
Definition write_fails (tr : list event) (err : JS.exn) : Prop :=
  exists pre post,
    tr = (pre ++ WriteError err :: post)%list
    /\ forallb (fun ev => negb (write_error ev)) pre = true.

(** The write stream fails with [err] while the call has no outcome yet. *)
Definition crashes_with (tr : list event) (err : JS.exn) : Prop :=
  exists pre post,
    tr = (pre ++ WriteError err :: post)%list
    /\ forallb (fun ev => negb (settles ev)) pre = true.

End Fetch.

(** ** Commands: a process that can also wait forever on a promise *)

Module Task.

Import JS Promise Process.

(** How a command gets on: it returns, its promise rejects, it ends the
    process with [process.exit], it waits on a promise that never settles,
    or an exception thrown outside every promise ends the process. *)
Inductive status (A : Type) :=
| Returns (a : A)
| Throws (e : exn)
| Exits (code : Z)
| Stalls
| Crashes (e : exn).
Arguments Returns {A} a.
Arguments Throws {A} e.
Arguments Exits {A} code.
Arguments Stalls {A}.
Arguments Crashes {A} e.

Definition task (A : Type) : Type := console -> console * status A.

Definition ret {A} (a : A) : task A := fun c => (c, Returns a).

Definition throw {A} (e : exn) : task A := fun c => (c, Throws e).

Definition bind {A B} (m : task A) (k : A -> task B) : task B :=
  fun c =>
    match m c with
    | (c', Returns a) => k a c'
    | (c', Throws e) => (c', Throws e)
    | (c', Exits code) => (c', Exits code)
    | (c', Stalls) => (c', Stalls)
    | (c', Crashes e) => (c', Crashes e)
    end.

(** [try { m } catch (err) { handler }], and [promise.catch(handler)]. *)
Definition catch {A} (m : task A) (handler : exn -> task A) : task A :=
  fun c =>
    match m c with
    | (c', Throws e) => handler e c'
    | other => other
    end.

Definition of_proc {A} (p : proc A) : task A :=
  fun c =>
    match p c with
    | (c', Returned a) => (c', Returns a)
    | (c', Thrown e) => (c', Throws e)
    | (c', Exited code) => (c', Exits code)
    end.

Definition lift {A} (r : completion A) : task A := of_proc (Process.lift r).

Definition info (s : string) : task unit := of_proc (console_info (PText s)).

Definition log_error (p : printed) : task unit := of_proc (console_error p).

Definition exit {A} (code : Z) (message : message_arg) : task A :=
  of_proc (Process.exit code message).

(** [await promise]: a promise that never settles is never resumed. *)
Definition await {A} (p : promise A) : task A :=
  fun c =>
    match p with
    | Resolved a => (c, Returns a)
    | Rejected e => (c, Throws e)
    | Pending => (c, Stalls)
    end.

End Task.

(** ** The commands

    What a command reads from its surroundings is a [host]: the
    environment variables, the platform, the directories, and what each
    library call answers. *)

Module Commands.

Import JS Promise Process Releases Helpers Task.

Local Open Scope string_scope.

Record host := mkHost {
  ACCESS_TOKEN_SECRET : option string;
  REPO : option string;
  platform : string;
  homedir : string;
  cwd : string;
  (** [shell.which(name)] *)
  which : string -> option string;
  (** [path.resolve(name)] *)
  resolve_path : string -> string;
  (** [fs.copy(from, to)] *)
  copy : string -> string -> promise unit;
  (** the events of the handle [child_process.spawn(cmd, args, {cwd})] *)
  child : string -> list string -> option string -> list Spawn.event;
  (** [axios.get(url)] *)
  axios_get : string -> axios_result;
  (** the events of a download: those of [request.get(url)] and the
      errors of the write stream it is piped to *)
  request : string -> string -> list Download.event;
  JSON_stringify : value -> string;
  display : value -> string
}.

Local Notation "x <- m ;; k" := (Task.bind m (fun x => k))
  (at level 61, m at next level, right associativity).

Definition msg (s : string) : message_arg := Some (inl s).

(** The values of the type of [process.platform]. *)
Definition node_platforms : list string :=
  ["aix"; "android"; "darwin"; "freebsd"; "haiku"; "linux"; "openbsd"; "sunos";
   "win32"; "cygwin"; "netbsd"].

(** An environment variable as a value: [undefined] when it is not set. *)
Definition env_value (v : option string) : value :=
  match v with
  | Some s => VString s
  | None => VUndefined
  end.

(** The argument [exit] gets when it is passed a tag. *)
Definition message_of (v : value) : message_arg :=
  match v with
  | VString s => Some (inl s)
  | _ => None
  end.

(** What of the events of a download an [await] on [downloadFile] sees:
    those up to the one that settles the promise or ends the process. *)
Fixpoint until_settled (tr : list Download.event) : list Download.event :=
  match tr with
  | [] => []
  | ev :: rest => if Download.settles ev then [ev] else ev :: until_settled rest
  end.

(** [await downloadFile(url, to)]: the lines the listeners log, then the
    outcome of the promise.  The error of the write stream, like an
    exception in a listener, is caught by no [catch] of the command: it
    ends the process. *)
Definition await_download (tr : list Download.event) : task unit :=
  fun c =>
    match Download.downloadFile (until_settled tr) with
    | Normal st =>
        (mkConsole (info_stream c ++ map PText (Download.info st))%list (error_stream c),
         match Download.crashed st with
         | Some e => Crashes e
         | None =>
             match Download.settled st with
             | Resolved _ => Returns tt
             | Rejected e => Throws e
             | Pending => Stalls
             end
         end)
    | Throw e => (c, Crashes e)
    end.

Definition verify_access_token (h : host) : task unit :=
  _ <- info "Verifying personal access token in $ACCESS_TOKEN_SECRET..." ;;
  _ <- (if negb (truthy_value (env_value (ACCESS_TOKEN_SECRET h)))
        then exit 1 (msg "$ACCESS_TOKEN_SECRET not set in environment")
        else ret tt) ;;
  _ <- info "Verified presence of $ACCESS_TOKEN_SECRET in environment" ;;
  exit 0 None.

Definition verify_repo (h : host) : task unit :=
  _ <- info "Verifying HLD/Manifest repository URL in $REPO..." ;;
  _ <- (if negb (truthy_value (env_value (REPO h)))
        then exit 1 (msg "$REPO not set in environment")
        else ret tt) ;;
  _ <- info "Verified presence of $REPO in environment" ;;
  exit 0 None.

Definition init (h : host) : task unit :=
  let home := homedir h in
  let cwd := cwd h in
  _ <- info ("Copying contents of " ++ cwd ++ " to " ++ home) ;;
  _ <- catch (await (copy h cwd home))
         (fun err =>
            _ <- log_error (PError err) ;;
            exit 1 (msg ("Error copying files in current directory to " ++ home))) ;;
  exit 0 (msg ("Completed copying files project files " ++ home)).

Definition helm_init (h : host) : task unit :=
  _ <- info "Initializing helm client..." ;;
  match which h "helm" with
  | None => exit 1 (msg "helm executable not found in $PATH")
  | Some helm =>
      _ <- info ("Found helm executable at: " ++ helm) ;;
      _ <- info "Verifying helm version..." ;;
      _ <- catch
             (r <- await (Spawn.spawn (child h "helm" ["version"] None)) ;;
              if negb (Text.search Text.re_semver_v2 (Spawn.stdCombined r))
              then exit 1 (msg "Helm 2 not installed")
              else ret tt)
             (fun err =>
                _ <- log_error (PError err) ;;
                exit 1 (msg "Error executing `helm version`")) ;;
      _ <- info "Verified Helm 2 installation" ;;
      _ <- catch
             (r <- await (Spawn.spawn (child h "helm" ["init"; "--client-only"] None)) ;;
              if negb (Z.eqb (Spawn.code r) 0)
              then
                _ <- log_error (PText (Spawn.stdCombined r)) ;;
                exit 1 (msg "non-zero exit returned from `helm init --client-only`")
              else ret tt)
             (fun err =>
                _ <- log_error (PError err) ;;
                exit 1 (msg "Error executing `helm init --client-only`")) ;;
      exit 0 (msg "Successfully initialized helm client")
  end.

Definition get_fab_version (h : host) : task unit :=
  let fabReleases := "https://api.github.com/repos/microsoft/fabrikate/releases/latest" in
  latestVersion <-
    catch (of_proc (getLatestGitTag (JSON_stringify h) (axios_get h) fabReleases))
      (fun err =>
         _ <- log_error (PError err) ;;
         exit 1 (msg ("Error fetching releases page from " ++ fabReleases))) ;;
  exit 0 (message_of latestVersion).

Definition fab_host_platform (platform : string) : option string :=
  if Text.search Text.re_windows platform then Some "windows"
  else if Text.search Text.re_darwin platform then Some "darwin"
  else if Text.search Text.re_linux platform then Some "linux"
  else None.

Definition download_fab (h : host) : task unit :=
  let platform := platform h in
  match fab_host_platform platform with
  | None => exit 1 (msg "Unable to determine host OS")
  | Some hostPlatform =>
      _ <- info ("Determined host OS: " ++ hostPlatform) ;;
      versionToDownload <-
        catch (of_proc (getFabrikateVersion (JSON_stringify h) (axios_get h)))
          (fun err =>
             _ <- log_error (PError err) ;;
             exit 1 (msg "Error fetching latest Fabrikate version")) ;;
      let version := template_text (display h) versionToDownload in
      let fabrikateDownload :=
        "https://github.com/microsoft/fabrikate/releases/download/" ++ version
          ++ "/fab-v" ++ version ++ "-" ++ hostPlatform ++ "-amd64.zip" in
      _ <- info ("Downloading Fabrikate from: " ++ fabrikateDownload) ;;
      let fabWritePath := resolve_path h "fab.zip" in
      _ <- catch (await_download (request h fabrikateDownload fabWritePath))
             (fun err =>
                _ <- log_error (PError err) ;;
                exit 1 (msg ("Error downloading Fabrikate from " ++ fabrikateDownload))) ;;
      _ <- info ("Unzipping " ++ fabWritePath) ;;
      _ <- catch
             (r <- await (Spawn.spawn (child h "unzip" [fabWritePath] None)) ;;
              _ <- info (Spawn.stdCombined r) ;;
              if negb (Z.eqb (Spawn.code r) 0)
              then throw (mkExn PlainError
                            ("Non-zero exit code returned from 'unzip " ++ fabWritePath ++ "'"))
              else ret tt)
             (fun err =>
                _ <- log_error (PError err) ;;
                exit 1 (msg ("Error unzipping " ++ fabWritePath))) ;;
      exit 0 (msg ("Downloaded Fabrikate to " ++ fabWritePath))
  end.

Definition spk_host_platform (platform : string) : option string :=
  if Text.search Text.re_windows_or_msys platform then Some "win.exe"
  else if Text.search Text.re_darwin platform then Some "macos"
  else if Text.search Text.re_linux platform then Some "linux"
  else None.

(** [shell.chmod("+x", spkWritePath)] writes nothing to the console and
    does not throw; it leaves no trace here. *)
Definition download_spk (h : host) : task unit :=
  let platform := platform h in
  match spk_host_platform platform with
  | None => exit 1 (msg "Unable to determine host OS")
  | Some hostPlatform =>
      let spkLatestPage := "https://api.github.com/repos/CatalystCode/spk/releases/latest" in
      versionToDownload <-
        catch (of_proc (getLatestGitTag (JSON_stringify h) (axios_get h) spkLatestPage))
          (fun err =>
             _ <- log_error (PError err) ;;
             exit 1 (msg ("Error fetching releases page from " ++ spkLatestPage))) ;;
      let version := template_text (display h) versionToDownload in
      _ <- info ("Latest SPK version: " ++ version) ;;
      let spkDownload :=
        "https://github.com/CatalystCode/spk/releases/download/" ++ version
          ++ "/spk-" ++ hostPlatform in
      _ <- info ("Downloading spk from " ++ spkDownload) ;;
      let spkWritePath := resolve_path h "spk" in
      _ <- catch (await_download (request h spkDownload spkWritePath))
             (fun err =>
                _ <- log_error (PError err) ;;
                exit 1 (msg ("Error downloading spk from " ++ spkDownload))) ;;
      exit 0 (msg ("Downloaded spk to " ++ spkWritePath))
  end.

(** [repo.replace(/^https?:\/\//i, `https://${PAT}@`)] *)
Definition PATBasedRepo (repo PAT : string) : string :=
  Text.replace_prefix Text.re_http_slashes ("https://" ++ PAT ++ "@") repo.

(** [PATBasedRepo.split("/").slice(-1)[0]] *)
Definition repoName (patBasedRepo : string) : string :=
  Text.last_piece (Text.split "/" patBasedRepo).

Definition git_connect (h : host) : task unit :=
  catch
    (let repo := REPO h in
     let PAT := ACCESS_TOKEN_SECRET h in
     _ <- lift (assertIsTruthyString (display h) (env_value repo)) ;;
     _ <- lift (assertIsTruthyString (display h) (env_value PAT)) ;;
     match repo, PAT with
     | Some repo, Some PAT =>
         _ <- (if negb (match Text.match_prefix Text.re_http repo with
                        | Some _ => true
                        | None => false
                        end)
               then throw (mkExn PlainError
                             ("Invalid $REPO set. Expected an (http|https) git URL, found "
                                ++ repo))
               else ret tt) ;;
         let PATBasedRepo := PATBasedRepo repo PAT in
         let repoName := repoName PATBasedRepo in
         _ <- info ("Cloning " ++ PATBasedRepo) ;;
         _ <- catch (await (Spawn.spawn (child h "git" ["clone"; PATBasedRepo] None)))
                (fun err =>
                   _ <- log_error (PError err) ;;
                   throw (mkExn PlainError ("Unable to clone " ++ PATBasedRepo))) ;;
         _ <- info "Pulling origin/master" ;;
         _ <- catch (await (Spawn.spawn
                              (child h "git" ["pull"; "origin"; "master"]
                                 (Some (resolve_path h repoName)))))
                (fun err =>
                   _ <- log_error (PError err) ;;
                   throw (mkExn PlainError
                            ("Unable to 'git pull origin master' in " ++ repoName))) ;;
         ret tt
     | _, _ => ret tt
     end)
    (fun err =>
       _ <- log_error (PError err) ;;
       exit 1 None).

(** The releases page at [url] answers with status 200 and an object
    whose [tag_name] is the string [tag]. *)
Definition latest_tag (h : host) (url tag : string) : Prop :=
  exists resp props,
    axios_get h url = AxiosResolved resp
    /\ Releases.status resp = 200%Z
    /\ Releases.data resp = VObject props
    /\ lookup "tag_name" props = VString tag.

(** Some promise the host hands to a command never settles: a copy, a
    child that neither exits nor fails to start, or a download with no
    ["complete"], no ["error"] and a write stream that holds. *)
Definition never_settles (h : host) : Prop :=
  (exists from to, copy h from to = Pending)
  \/ (exists cmd args dir, Spawn.spawn (child h cmd args dir) = Pending)
  \/ (exists url to,
        forallb (fun ev => negb (Download.settles ev)) (request h url to) = true).

(** The write stream of some download fails before the download has its
    outcome. *)
Definition write_stream_fails (h : host) (e : exn) : Prop :=
  exists url to, Fetch.crashes_with (request h url to) e.

(** The ways a command started on the console [c] can get on.  It ends the
    process with code 0 and nothing new on the error stream, or with
    code 1 and something new on it; where [returns] allows it returns with
    nothing new on the error stream; it waits forever, which takes a
    promise that never settles; or, where [crashes] allows, an uncaught
    exception ends it.  Its own promise never rejects. *)
Definition ends_in (h : host) (c : console) (returns : Prop) (crashes : exn -> Prop)
  (r : console * status unit) : Prop :=
  (snd r = Exits 0 /\ error_stream (fst r) = error_stream c)
  \/ (snd r = Exits 1
      /\ (List.length (error_stream c) < List.length (error_stream (fst r)))%nat)
  \/ (snd r = Returns tt /\ returns /\ error_stream (fst r) = error_stream c)
  \/ (snd r = Stalls /\ never_settles h)
  \/ (exists e, snd r = Crashes e /\ crashes e).

End Commands.

(** * Strings *)

Lemma append_empty_r (s : string) : (s ++ "")%string = s.
Proof. induction s as [|c s IH]; simpl; [reflexivity | now rewrite IH]. Qed.

Lemma append_assoc (a b c : string) : ((a ++ b) ++ c)%string = (a ++ (b ++ c))%string.
Proof. induction a as [|x a IH]; simpl; [reflexivity | now rewrite IH]. Qed.

Lemma length_append (a b : string) :
  String.length (a ++ b) = (String.length a + String.length b)%nat.
Proof. induction a as [|x a IH]; simpl; [reflexivity | now rewrite IH]. Qed.

Lemma join_cons (x : string) (xs : list string) :
  Spawn.join (x :: xs) = (x ++ Spawn.join xs)%string.
Proof.
  unfold Spawn.join. destruct xs as [|y ys]; simpl.
  - now rewrite append_empty_r.
  - reflexivity.
Qed.

(** * The subprocess runner *)

Section SpawnFacts.

Import Promise Spawn.

Lemma spawn_run_app (st : state) (a b : list event) :
  run st (a ++ b) = run (run st a) b.
Proof. apply fold_left_app. Qed.

Lemma spawn_run_cons (st : state) (ev : event) (tr : list event) :
  run st (ev :: tr) = run (on_event st ev) tr.
Proof. reflexivity. Qed.

(** While only data arrives, the buffers grow by the chunks and the promise
    is left as it was. *)
Lemma spawn_run_data (pre : list event) :
  forallb is_data pre = true ->
  forall st,
    run st pre =
    mkState (v_stdout st ++ join (stdout_chunks pre))
            (v_stderr st ++ join (stderr_chunks pre))
            (v_stdCombined st ++ join (all_chunks pre))
            (v_code st) (settled st).
Proof.
  induction pre as [|ev pre IH]; intros Hdata st.
  - cbn. rewrite !append_empty_r. now destruct st.
  - cbn in Hdata. apply andb_prop in Hdata as [Hev Hpre].
    destruct ev as [d|d|e|c]; try discriminate Hev;
      rewrite spawn_run_cons, (IH Hpre); cbn [stdout_chunks stderr_chunks all_chunks];
      rewrite ?join_cons; cbn; now rewrite ?append_assoc.
Qed.

(** A settled promise stays as it is, whatever is emitted later. *)
Lemma spawn_settled_sticky (tr : list event) :
  forall st, settled st <> Pending -> settled (run st tr) = settled st.
Proof.
  induction tr as [|ev tr IH]; intros st Hst; [reflexivity|].
  rewrite spawn_run_cons.
  assert (Hev : settled (on_event st ev) = settled st)
    by (revert Hst; destruct ev; cbn; destruct (settled st); intros H; try reflexivity; now elim H).
  rewrite IH; rewrite Hev; auto.
Qed.

(** A trace is all data, or has a first event that is not. *)
Lemma first_settling_event (tr : list event) :
  forallb is_data tr = true
  \/ exists pre ev post,
       tr = (pre ++ ev :: post)%list /\ forallb is_data pre = true /\ is_data ev = false.
Proof.
  induction tr as [|ev tr IH]; [now left|].
  destruct (is_data ev) eqn:Hev.
  - destruct IH as [Hall | (pre & ev' & post & -> & Hpre & Hev')].
    + left. cbn. now rewrite Hev.
    + right. exists (ev :: pre), ev', post. cbn. rewrite Hev. auto.
  - right. exists [], ev, tr. auto.
Qed.

Lemma spawn_data (pre : list event) :
  forallb is_data pre = true -> spawn pre = Pending.
Proof. intros H. unfold spawn. now rewrite (spawn_run_data pre H). Qed.

Lemma spawn_error (pre post : list event) (err : JS.exn) :
  forallb is_data pre = true ->
  spawn (pre ++ ErrorEvent err :: post) = Rejected err.
Proof.
  intros H. unfold spawn. rewrite spawn_run_app, (spawn_run_data pre H).
  rewrite spawn_run_cons, spawn_settled_sticky; [reflexivity | discriminate].
Qed.

Lemma spawn_exit (pre post : list event) (exitCode : option Z) :
  forallb is_data pre = true ->
  spawn (pre ++ ExitEvent exitCode :: post) =
  Resolved (mkResult (join (stdout_chunks pre)) (join (stderr_chunks pre))
              (join (all_chunks pre))
              (match exitCode with Some c => c | None => 0 end)).
Proof.
  intros H. unfold spawn. rewrite spawn_run_app, (spawn_run_data pre H).
  rewrite spawn_run_cons, spawn_settled_sticky; [now destruct exitCode | discriminate].
Qed.

Lemma length_all_chunks (tr : list event) :
  String.length (join (all_chunks tr)) =
  (String.length (join (stdout_chunks tr)) + String.length (join (stderr_chunks tr)))%nat.
Proof.
  induction tr as [|ev tr IH]; [reflexivity|].
  destruct ev; cbn [all_chunks stdout_chunks stderr_chunks]; auto;
    rewrite !join_cons, !length_append, IH; lia.
Qed.

End SpawnFacts.

(** C1.  [spawn] rejects exactly when the handle reports a launch error (an
    ["error"] event with no ["exit"] before it), and with that error.  When
    the process starts and exits with a code, the call resolves with a
    result carrying that code and is not a rejection, so the two cases are
    told apart by how the promise settles. *)
Theorem spawn_rejects_iff_launch_error (tr : list Spawn.event) :
  (forall err, Spawn.spawn tr = Promise.Rejected err <-> Spawn.launch_error tr err)
  /\ (forall c,
        Spawn.exits_with tr (Some c) ->
        (exists r, Spawn.spawn tr = Promise.Resolved r /\ Spawn.code r = c)
        /\ forall err, Spawn.spawn tr <> Promise.Rejected err).
Proof.
  split.
  - intros err. split.
    + intros Hrej.
      destruct (first_settling_event tr) as [Hall | (pre & ev & post & -> & Hpre & Hev)].
      * rewrite (spawn_data tr Hall) in Hrej. discriminate.
      * destruct ev as [d|d|e|c]; try discriminate Hev.
        -- rewrite (spawn_error pre post e Hpre) in Hrej.
           injection Hrej as ->. now exists pre, post.
        -- rewrite (spawn_exit pre post c Hpre) in Hrej. discriminate.
    + intros (pre & post & -> & Hpre). now apply spawn_error.
  - intros c (pre & post & -> & Hpre).
    rewrite (spawn_exit pre post (Some c) Hpre). split.
    + eexists. split; reflexivity.
    + discriminate.
Qed.

Lemma spawn_rejects_iff_launch_error_witness :
  (exists r,
     Spawn.spawn [Spawn.StdoutData "usage"; Spawn.ExitEvent (Some 2)] = Promise.Resolved r
     /\ Spawn.code r = 2)
  /\ forall err,
       Spawn.spawn [Spawn.StdoutData "usage"; Spawn.ExitEvent (Some 2)]
       <> Promise.Rejected err.
Proof.
  apply (proj2 (spawn_rejects_iff_launch_error
                  [Spawn.StdoutData "usage"; Spawn.ExitEvent (Some 2)]) 2).
  exists [Spawn.StdoutData "usage"], []. split; reflexivity.
Defined.

(** C2.  For a process that starts and reports termination with exit code
    [c], [spawn] resolves with a result whose [code] is [c]; when the
    platform reports no numeric code ([null]) the [code] is 0.  Before the
    ["exit"] event the promise is pending, and what is emitted after it
    changes nothing. *)
Theorem spawn_resolves_with_exit_code
  (pre post : list Spawn.event) (exitCode : option Z) :
  forallb Spawn.is_data pre = true ->
  Spawn.spawn pre = Promise.Pending
  /\ exists r,
       Spawn.spawn (pre ++ Spawn.ExitEvent exitCode :: post) = Promise.Resolved r
       /\ Spawn.code r = match exitCode with Some c => c | None => 0 end.
Proof.
  intros Hpre. split.
  - now apply spawn_data.
  - rewrite (spawn_exit pre post exitCode Hpre). eexists. split; reflexivity.
Qed.

Lemma spawn_resolves_with_exit_code_witness :
  Spawn.spawn [Spawn.StderrData "killed"] = Promise.Pending
  /\ exists r,
       Spawn.spawn ([Spawn.StderrData "killed"] ++ Spawn.ExitEvent None :: [])
       = Promise.Resolved r
       /\ Spawn.code r = 0.
Proof.
  apply (spawn_resolves_with_exit_code [Spawn.StderrData "killed"] [] None).
  reflexivity.
Defined.

(** C3, as stated, fails: a chunk that a stream delivers after the ["exit"]
    event is appended to the closure's variables but not to the result the
    promise was resolved with. *)
Lemma spawn_drops_chunks_after_exit : ~ Spawn.result_holds_every_chunk.
Proof.
  intros H.
  destruct (H [Spawn.StdoutData "a"; Spawn.ExitEvent (Some 0); Spawn.StdoutData "b"]
              (Spawn.mkResult "a" "" "a" 0) eq_refl) as [Hout _].
  discriminate Hout.
Qed.

(** C3, amended.  Whenever [spawn] resolves, the trace has a first ["exit"]
    event preceded by data only, and in the result [stdout] is the
    concatenation of the stdout chunks received before it, in arrival
    order, [stderr] that of the stderr chunks, and [stdCombined] that of the
    chunks of both streams in the order received, so that its length is the
    sum of the two others.  [stdCombined] is not the two finished streams
    put one after the other: some run has them differ. *)
Theorem spawn_result_interleaves_chunks_before_exit :
  (forall tr r,
     Spawn.spawn tr = Promise.Resolved r ->
     exists pre exitCode post,
       tr = (pre ++ Spawn.ExitEvent exitCode :: post)%list
       /\ forallb Spawn.is_data pre = true
       /\ Spawn.stdout r = Spawn.join (Spawn.stdout_chunks pre)
       /\ Spawn.stderr r = Spawn.join (Spawn.stderr_chunks pre)
       /\ Spawn.stdCombined r = Spawn.join (Spawn.all_chunks pre)
       /\ String.length (Spawn.stdCombined r)
          = (String.length (Spawn.stdout r) + String.length (Spawn.stderr r))%nat)
  /\ exists tr r,
       Spawn.spawn tr = Promise.Resolved r
       /\ Spawn.stdCombined r <> (Spawn.stdout r ++ Spawn.stderr r)%string.
Proof.
  split.
  - intros tr r Hres.
    destruct (first_settling_event tr) as [Hall | (pre & ev & post & -> & Hpre & Hev)].
    + rewrite (spawn_data tr Hall) in Hres. discriminate.
    + destruct ev as [d|d|e|c]; try discriminate Hev.
      * rewrite (spawn_error pre post e Hpre) in Hres. discriminate.
      * rewrite (spawn_exit pre post c Hpre) in Hres. injection Hres as <-.
        exists pre, c, post. cbn. repeat split; auto. apply length_all_chunks.
  - exists [Spawn.StderrData "b"; Spawn.StdoutData "a"; Spawn.ExitEvent (Some 0)].
    eexists. split; [reflexivity | discriminate].
Qed.

Lemma spawn_result_interleaves_chunks_before_exit_witness :
  exists pre exitCode post,
    [Spawn.StdoutData "a"; Spawn.StderrData "b"; Spawn.ExitEvent (Some 0);
     Spawn.StdoutData "late"]
    = (pre ++ Spawn.ExitEvent exitCode :: post)%list
    /\ forallb Spawn.is_data pre = true
    /\ "a"%string = Spawn.join (Spawn.stdout_chunks pre)
    /\ "b"%string = Spawn.join (Spawn.stderr_chunks pre)
    /\ "ab"%string = Spawn.join (Spawn.all_chunks pre)
    /\ String.length "ab" = (String.length "a" + String.length "b")%nat.
Proof.
  apply (proj1 spawn_result_interleaves_chunks_before_exit
           [Spawn.StdoutData "a"; Spawn.StderrData "b"; Spawn.ExitEvent (Some 0);
            Spawn.StdoutData "late"]
           (Spawn.mkResult "a" "b" "ab" 0)).
  reflexivity.
Defined.

(** * Binary64 arithmetic on byte counts

    Integers below 2^53 are numbers, their sums are computed without
    rounding, and a number divided by itself is one. *)

Lemma digits2_pos_size (p : positive) : digits2_pos p = Pos.size p.
Proof. induction p as [p IH|p IH|]; cbn; now rewrite ?IH. Qed.

Lemma digits2_pos_log2 (p : positive) : Zpos (digits2_pos p) = Z.log2 (Zpos p) + 1.
Proof.
  rewrite digits2_pos_size. destruct p; cbn [Pos.size Z.log2]; try lia.
Qed.

Lemma Zdigits2_log2 (z : Z) : 0 < z -> Zdigits2 z = Z.log2 z + 1.
Proof.
  destruct z as [|p|p]; try lia. intros _. apply digits2_pos_log2.
Qed.

Lemma shr_1_double (m : Z) :
  shr_1 (Build_shr_record (2 * m) false false) = Build_shr_record m false false.
Proof. destruct m; reflexivity. Qed.

Lemma iter_pos_shr_1 (p : positive) :
  forall m, iter_pos shr_1 p (Build_shr_record (m * 2 ^ Zpos p) false false)
            = Build_shr_record m false false.
Proof.
  induction p as [p IH|p IH|]; intros m; cbn [iter_pos].
  - replace (m * 2 ^ Zpos p~1) with (2 * ((m * 2 ^ Zpos p) * 2 ^ Zpos p)).
    + now rewrite shr_1_double, !IH.
    + rewrite (Pos2Z.inj_xI p), Z.pow_add_r, Z.pow_mul_r, Z.pow_2_r by lia.
      rewrite Z.pow_mul_l. ring.
  - replace (m * 2 ^ Zpos p~0) with ((m * 2 ^ Zpos p) * 2 ^ Zpos p).
    + now rewrite !IH.
    + rewrite (Pos2Z.inj_xO p), Z.pow_mul_r, Z.pow_2_r by lia.
      rewrite Z.pow_mul_l. ring.
  - replace (m * 2 ^ 1) with (2 * m) by ring. apply shr_1_double.
Qed.

Lemma shr_exact (m e j : Z) :
  0 <= j ->
  shr (Build_shr_record (m * 2 ^ j) false false) e j
  = (Build_shr_record m false false, e + j).
Proof.
  intros Hj. destruct j as [|p|p]; try lia; cbn [shr].
  - now rewrite Z.mul_1_r, Z.add_0_r.
  - now rewrite iter_pos_shr_1.
Qed.

Lemma binary_round_aux_exact (m : positive) (e j : Z) :
  Zpos (digits2_pos m) = 53 ->
  0 <= j ->
  -1074 <= e + j <= 971 ->
  binary_round_aux 53 1024 false (Zpos m * 2 ^ j) e loc_Exact
  = S754_finite false m (e + j).
Proof.
  intros Hm Hj He.
  assert (Hlog : Z.log2 (Zpos m) = 52) by (rewrite digits2_pos_log2 in Hm; lia).
  assert (Hpow : 0 < 2 ^ j) by (apply Z.pow_pos_nonneg; lia).
  unfold binary_round_aux, shr_fexp.
  rewrite Zdigits2_log2 by lia.
  rewrite Z.log2_mul_pow2 by lia. rewrite Hlog.
  unfold fexp, emin. cbn [shr_record_of_loc].
  replace (Z.max (j + 52 + 1 + e - 53) (3 - 1024 - 53) - e) with j by lia.
  rewrite shr_exact by lia.
  cbn [shr_m loc_of_shr_record round_nearest_even Zdigits2].
  rewrite Hm.
  replace (Z.max (53 + (e + j) - 53) (3 - 1024 - 53) - (e + j)) with 0 by lia.
  cbn [shr shr_m].
  destruct (Z.leb_spec (e + j) (1024 - 53)); [reflexivity | lia].
Qed.

Lemma pos_iter_xO (m q : positive) : Zpos (Pos.iter xO m q) = Zpos m * 2 ^ Zpos q.
Proof.
  induction q as [|q IH] using Pos.peano_ind.
  - cbn [Pos.iter]. rewrite (Pos2Z.inj_xO m). change (2 ^ 1) with 2. ring.
  - rewrite Pos.iter_succ, (Pos2Z.inj_xO (Pos.iter xO m q)), IH.
    rewrite Pos2Z.inj_succ, Z.pow_succ_r by lia. ring.
Qed.

Lemma log2_safe (n : Z) : 0 < n < 2 ^ 53 -> 0 <= Z.log2 n <= 52.
Proof.
  intros Hn. split; [apply Z.log2_nonneg|].
  assert (Z.log2 n < 53) by (apply Z.log2_lt_pow2; lia). lia.
Qed.

Lemma normal_mantissa (n : Z) :
  0 < n < 2 ^ 53 ->
  Zpos (Z.to_pos (n * 2 ^ (52 - Z.log2 n))) = n * 2 ^ (52 - Z.log2 n)
  /\ Zpos (digits2_pos (Z.to_pos (n * 2 ^ (52 - Z.log2 n)))) = 53.
Proof.
  intros Hn. pose proof (log2_safe n Hn) as Hlog.
  assert (Hpos : 0 < n * 2 ^ (52 - Z.log2 n))
    by (apply Z.mul_pos_pos; [lia | apply Z.pow_pos_nonneg; lia]).
  assert (Hm : Zpos (Z.to_pos (n * 2 ^ (52 - Z.log2 n))) = n * 2 ^ (52 - Z.log2 n))
    by (apply Z2Pos.id; exact Hpos).
  split; [exact Hm|].
  rewrite digits2_pos_log2, Hm, Z.log2_mul_pow2 by lia. lia.
Qed.

Lemma binary_normalize_exact (n k : Z) :
  0 < n < 2 ^ 53 ->
  0 <= k ->
  binary_normalize 53 1024 (n * 2 ^ k) (- k) false = Num.normal n.
Proof.
  intros Hn Hk. pose proof (log2_safe n Hn) as Hlog.
  destruct (normal_mantissa n Hn) as [Hm Hdigits].
  assert (Hpos : 0 < n * 2 ^ k)
    by (apply Z.mul_pos_pos; [lia | apply Z.pow_pos_nonneg; lia]).
  destruct (n * 2 ^ k) as [|M|M] eqn:HM; try lia.
  cbn [binary_normalize]. unfold binary_round.
  rewrite digits2_pos_log2, <- HM, Z.log2_mul_pow2 by lia.
  unfold fexp, emin.
  replace (Z.max (k + Z.log2 n + 1 + - k - 53) (3 - 1024 - 53)) with (Z.log2 n - 52) by lia.
  unfold shl_align, Num.normal.
  destruct (Z.log2 n - 52 - - k) as [|j|q] eqn:Hshift.
  - replace (Zpos M) with (Zpos (Z.to_pos (n * 2 ^ (52 - Z.log2 n))) * 2 ^ 0)
      by (rewrite Hm, <- HM; replace k with (52 - Z.log2 n) by lia; ring).
    rewrite binary_round_aux_exact by lia. f_equal. lia.
  - replace (Zpos M) with (Zpos (Z.to_pos (n * 2 ^ (52 - Z.log2 n))) * 2 ^ Zpos j).
    + rewrite binary_round_aux_exact by lia. f_equal. lia.
    + rewrite Hm, <- HM, <- Z.mul_assoc, <- Z.pow_add_r by lia.
      do 2 f_equal. lia.
  - replace (Zpos (Pos.iter xO M q))
      with (Zpos (Z.to_pos (n * 2 ^ (52 - Z.log2 n))) * 2 ^ 0).
    + rewrite binary_round_aux_exact by lia. f_equal. lia.
    + rewrite pos_iter_xO, Hm, <- HM.
      replace (52 - Z.log2 n) with (k + Z.pos q) by lia.
      rewrite Z.pow_add_r by lia. ring.
Qed.

Lemma of_Z_exact (n : Z) :
  0 <= n < 2 ^ 53 -> binary_normalize 53 1024 n 0 false = Num.exact n.
Proof.
  intros Hn. unfold Num.exact. destruct (Z.eqb_spec n 0) as [->|Hne]; [reflexivity|].
  replace n with (n * 2 ^ 0) at 1 by ring.
  change 0 with (- 0) at 2. apply binary_normalize_exact; lia.
Qed.

Lemma shl_align_value (m : positive) (e e' : Z) :
  e' <= e -> Zpos (fst (shl_align m e e')) = Zpos m * 2 ^ (e - e').
Proof.
  intros He. unfold shl_align. destruct (e' - e) as [|p|p] eqn:Hd; try lia; cbn [fst].
  - replace (e - e') with 0 by lia. ring.
  - rewrite pos_iter_xO. f_equal. f_equal. lia.
Qed.

Lemma add_normal (a b : Z) :
  0 < a -> 0 < b -> a + b < 2 ^ 53 ->
  SFadd 53 1024 (Num.normal a) (Num.normal b) = Num.normal (a + b).
Proof.
  intros Ha Hb Hab.
  pose proof (log2_safe a ltac:(lia)) as Hla.
  pose proof (log2_safe b ltac:(lia)) as Hlb.
  destruct (normal_mantissa a ltac:(lia)) as [Hma _].
  destruct (normal_mantissa b ltac:(lia)) as [Hmb _].
  unfold Num.normal at 1 2. cbn [SFadd cond_Zopp].
  rewrite !shl_align_value by lia. rewrite Hma, Hmb.
  set (ez := Z.min (Z.log2 a - 52) (Z.log2 b - 52)).
  replace (a * 2 ^ (52 - Z.log2 a) * 2 ^ (Z.log2 a - 52 - ez)
           + b * 2 ^ (52 - Z.log2 b) * 2 ^ (Z.log2 b - 52 - ez))
    with ((a + b) * 2 ^ (- ez)).
  - replace ez with (- - ez) at 2 by lia.
    apply binary_normalize_exact; lia.
  - rewrite <- !Z.mul_assoc, <- !Z.pow_add_r by lia.
    replace (52 - Z.log2 a + (Z.log2 a - 52 - ez)) with (- ez) by lia.
    replace (52 - Z.log2 b + (Z.log2 b - 52 - ez)) with (- ez) by lia.
    ring.
Qed.

Lemma add_exact (a b : Z) :
  0 <= a -> 0 <= b -> a + b < 2 ^ 53 ->
  SFadd 53 1024 (Num.exact a) (Num.exact b) = Num.exact (a + b).
Proof.
  intros Ha Hb Hab. unfold Num.exact.
  destruct (Z.eqb_spec a 0) as [->|Hna]; destruct (Z.eqb_spec b 0) as [->|Hnb];
    cbn [Z.add]; rewrite ?Z.add_0_r.
  - reflexivity.
  - destruct (Z.eqb_spec b 0); [lia | reflexivity].
  - destruct (Z.eqb_spec a 0); [lia | reflexivity].
  - destruct (Z.eqb_spec (a + b) 0); [lia | apply add_normal; lia].
Qed.

Lemma div_normal_self (n : Z) :
  0 < n < 2 ^ 53 ->
  SFdiv 53 1024 (Num.normal n) (Num.normal n) = S754_finite false 4503599627370496 (-52).
Proof.
  intros Hn. destruct (normal_mantissa n Hn) as [_ Hdigits].
  unfold Num.normal in *. set (m := Z.to_pos (n * 2 ^ (52 - Z.log2 n))) in *.
  set (e := Z.log2 n - 52).
  cbn [SFdiv]. unfold SFdiv_core_binary. cbn [Zdigits2]. rewrite Hdigits.
  unfold fexp, emin.
  replace (Z.min (Z.max (53 + e - (53 + e) - 53) (3 - 1024 - 53)) (e - e)) with (-53) by lia.
  replace (e - e - -53) with 53 by lia.
  rewrite Z.shiftl_mul_pow2 by lia.
  assert (Hdiv : Z.div_eucl (Zpos m * 2 ^ 53) (Zpos m) = (2 ^ 53, 0)).
  { rewrite (Z.mul_comm (Zpos m)).
    transitivity ((2 ^ 53 * Zpos m) / Zpos m, (2 ^ 53 * Zpos m) mod Zpos m).
    - unfold Z.div, Z.modulo.
      now destruct (Z.div_eucl (2 ^ 53 * Zpos m) (Zpos m)).
    - rewrite Z.div_mul, Z.mod_mul by lia. reflexivity. }
  rewrite Hdiv.
  assert (Hloc : new_location (Zpos m) 0 = loc_Exact)
    by (unfold new_location, new_location_even, new_location_odd;
        destruct (Z.even (Zpos m)); reflexivity).
  rewrite Hloc. reflexivity.
Qed.

Lemma num_of_Z_exact (n : Z) : 0 <= n < 2 ^ 53 -> Num.of_Z n = Num.exact n.
Proof. apply of_Z_exact. Qed.

Lemma num_add_exact (a b : Z) :
  0 <= a -> 0 <= b -> a + b < 2 ^ 53 ->
  Num.add (Num.exact a) (Num.exact b) = Num.exact (a + b).
Proof. apply add_exact. Qed.

Lemma num_div_self (n : Z) :
  0 < n < 2 ^ 53 -> Num.div (Num.exact n) (Num.exact n) = Num.of_Z 1.
Proof.
  intros Hn. unfold Num.exact. destruct (Z.eqb_spec n 0); [lia|].
  now apply div_normal_self.
Qed.

Lemma num_div_nan (x : Num.number) : Num.div x Num.nan = Num.nan.
Proof. now destruct x. Qed.

(** * The file fetcher *)

Section DownloadFacts.

Import JS Promise Download.

Lemma on_data (st : state) (chunk : list Byte.byte) :
  crashed st = None ->
  on_event st (Data chunk) =
  Normal
    (mkState (contentLength st)
       (Num.add (downloaded st) (Num.of_nat (List.length chunk)))
       (if piped st then dest st ++ chunk else dest st) (dest_ended st) (piped st) None
       (info st
          ++ [status_line
                (fixed_text
                   (Num.mul
                      (Num.div (Num.add (downloaded st) (Num.of_nat (List.length chunk)))
                         (contentLength st))
                      (Num.of_Z 100)) 2)])
       (settled st)).
Proof. intros Hlive. unfold on_event. now rewrite Hlive. Qed.

(** Once the process is gone no event is handled. *)
Lemma on_crashed (st : state) (ev : event) (e : exn) :
  crashed st = Some e -> on_event st ev = Normal st.
Proof. intros Hgone. unfold on_event. now rewrite Hgone. Qed.

(** No listener throws: [toFixed] is always called with two digits. *)
Lemma on_event_total (st : state) (ev : event) : exists st', on_event st ev = Normal st'.
Proof. unfold on_event. destruct (crashed st); [|destruct ev]; eexists; reflexivity. Qed.

Lemma download_run_cons (st : state) (ev : event) (tr : list event) :
  run st (ev :: tr) = JS.bind (on_event st ev) (fun st' => run st' tr).
Proof. reflexivity. Qed.

Lemma run_total (tr : list event) : forall st, exists st', run st tr = Normal st'.
Proof.
  induction tr as [|ev tr IH]; intros st; [now exists st|].
  destruct (on_event_total st ev) as [st1 H1].
  rewrite download_run_cons, H1. apply IH.
Qed.

Lemma download_run_app (a b : list event) :
  forall st, run st (a ++ b) = JS.bind (run st a) (fun st' => run st' b).
Proof.
  induction a as [|ev a IH]; intros st; [reflexivity|].
  cbn [app]. rewrite !download_run_cons.
  destruct (on_event st ev) as [st1|e]; cbn [JS.bind]; [apply IH | reflexivity].
Qed.

Lemma run_app_inv (a b : list event) (st st' : state) :
  run st (a ++ b) = Normal st' ->
  exists mid, run st a = Normal mid /\ run mid b = Normal st'.
Proof.
  rewrite download_run_app. destruct (run st a) as [mid|e]; cbn [JS.bind].
  - intros H. now exists mid.
  - discriminate.
Qed.

(** Once the process is gone the state stays as it is. *)
Lemma run_crashed (tr : list event) (st : state) (e : exn) :
  crashed st = Some e -> run st tr = Normal st.
Proof.
  intros Hgone. induction tr as [|ev tr IH]; [reflexivity|].
  now rewrite download_run_cons, (on_crashed st ev e Hgone).
Qed.

(** Over a run of chunks, with the pipe attached, the destination grows by
    them; the declared length, the end mark and the promise are
    untouched. *)
Lemma run_chunks (chunks : list (list Byte.byte)) :
  forall st,
    crashed st = None ->
    piped st = true ->
    exists st',
      run st (map Data chunks) = Normal st'
      /\ contentLength st' = contentLength st
      /\ dest st' = (dest st ++ List.concat chunks)%list
      /\ dest_ended st' = dest_ended st
      /\ settled st' = settled st
      /\ crashed st' = None.
Proof.
  induction chunks as [|c chunks IH]; intros st Hlive Hpiped.
  - exists st. cbn. now rewrite app_nil_r.
  - cbn [map]. rewrite download_run_cons, (on_data st c Hlive). cbn [JS.bind].
    match goal with
    | |- context [run ?s (map Data chunks)] =>
        destruct (IH s eq_refl Hpiped)
          as (st' & Hrun & Hlen & Hdest & Hend & Hset & Hlive')
    end.
    exists st'. cbn in *. rewrite Hpiped in Hdest.
    rewrite Hrun, Hlen, Hdest, Hend, Hset, <- app_assoc. auto 7.
Qed.

(** Without a declared length every chunk is reported as ["NaN"]. *)
Lemma run_chunks_nan (chunks : list (list Byte.byte)) :
  forall st st',
    run st (map Data chunks) = Normal st' ->
    crashed st = None ->
    contentLength st = Num.nan ->
    info st' = (info st ++ map (fun _ => status_line "NaN") chunks)%list.
Proof.
  induction chunks as [|c chunks IH]; intros st st' Hrun Hlive Hnan.
  - cbn in Hrun. injection Hrun as <-. cbn. now rewrite app_nil_r.
  - cbn [map] in Hrun. rewrite download_run_cons, (on_data st c Hlive) in Hrun.
    cbn [JS.bind] in Hrun.
    apply IH in Hrun; [|reflexivity|exact Hnan]. rewrite Hrun. cbn [info contentLength map].
    rewrite Hnan, num_div_nan, <- app_assoc. reflexivity.
Qed.

(** Byte counts below 2^53 are added without rounding. *)
Lemma run_chunks_downloaded (chunks : list (list Byte.byte)) :
  forall st st' d,
    run st (map Data chunks) = Normal st' ->
    crashed st = None ->
    downloaded st = Num.exact d ->
    0 <= d ->
    d + Z.of_nat (total_length chunks) < 2 ^ 53 ->
    downloaded st' = Num.exact (d + Z.of_nat (total_length chunks)).
Proof.
  unfold total_length.
  induction chunks as [|c chunks IH]; intros st st' d Hrun Hlive Hd Hpos Hsafe.
  - cbn in Hrun. injection Hrun as <-. cbn. now rewrite Z.add_0_r.
  - cbn [map] in Hrun. rewrite download_run_cons, (on_data st c Hlive) in Hrun.
    cbn [JS.bind] in Hrun.
    cbn [List.concat] in *. rewrite length_app in *.
    apply (IH _ _ (d + Z.of_nat (List.length c))) in Hrun; try lia.
    + rewrite Hrun. f_equal. lia.
    + reflexivity.
    + cbn [downloaded]. rewrite Hd. unfold Num.of_nat.
      rewrite num_of_Z_exact by lia. apply num_add_exact; lia.
Qed.

(** Events that do not settle leave the promise, and the process, as
    they are. *)
Lemma run_unsettling (pre : list event) :
  forallb (fun ev => negb (settles ev)) pre = true ->
  forall st st',
    run st pre = Normal st' ->
    settled st' = settled st /\ crashed st' = crashed st.
Proof.
  induction pre as [|ev pre IH]; intros Hpre st st' Hrun.
  - cbn in Hrun. now injection Hrun as <-.
  - cbn in Hpre. apply andb_prop in Hpre as [Hev Hpre].
    rewrite download_run_cons in Hrun. unfold on_event in Hrun.
    destruct (crashed st) as [e|] eqn:Hlive.
    + cbn [JS.bind] in Hrun. apply (IH Hpre) in Hrun. now rewrite Hlive in Hrun.
    + destruct ev; try discriminate Hev; cbn [toFixed Z.ltb Z.compare orb JS.bind] in Hrun;
        apply (IH Hpre) in Hrun; cbn [settled crashed] in Hrun; exact Hrun.
Qed.

Lemma download_settled_sticky (tr : list event) :
  forall st st',
    settled st <> Pending -> run st tr = Normal st' -> settled st' = settled st.
Proof.
  induction tr as [|ev tr IH]; intros st st' Hst Hrun.
  - cbn in Hrun. now injection Hrun as <-.
  - rewrite download_run_cons in Hrun. unfold on_event in Hrun.
    destruct (crashed st) as [e|].
    + cbn [JS.bind] in Hrun. now apply IH in Hrun.
    + destruct ev; cbn [toFixed Z.ltb Z.compare orb JS.bind] in Hrun;
        apply IH in Hrun; cbn [settled] in *;
        auto; destruct (settled st); cbn in *; congruence.
Qed.

Lemma first_settling (tr : list event) :
  forallb (fun ev => negb (settles ev)) tr = true
  \/ exists pre ev post,
       tr = (pre ++ ev :: post)%list
       /\ forallb (fun ev => negb (settles ev)) pre = true
       /\ settles ev = true.
Proof.
  induction tr as [|ev tr IH]; [now left|].
  destruct (settles ev) eqn:Hev.
  - right. exists [], ev, tr. auto.
  - destruct IH as [Hall | (pre & ev' & post & -> & Hpre & Hev')].
    + left. cbn. now rewrite Hev.
    + right. exists (ev :: pre), ev', post. cbn. rewrite Hev. auto.
Qed.

End DownloadFacts.

(** Runs the chunks that follow the state in the goal, naming what
    [run_chunks] says of the state reached. *)
Ltac run_the_chunks chunks st' Hrun Hlength Hdest Hset Hlive :=
  match goal with
  | |- context [Download.run ?s (map Download.Data chunks)] =>
      destruct (run_chunks chunks s eq_refl eq_refl)
        as (st' & Hrun & Hlength & Hdest & _ & Hset & Hlive)
  end.

(** Handles the events at the head of the run in the goal, from a state
    known to be live. *)
Ltac handle_events Hlive :=
  cbn [Download.run]; unfold Download.on_event; rewrite ?Hlive;
  cbn [JS.bind Download.crashed Download.init].

(** C4, as stated, fails: once the body has ended (["end"] has been
    emitted and the destination closed) the promise is still pending, for a
    chunked response and for one with a declared length alike.  The only
    listener that resolves is the one on the request's ["complete"]. *)
Lemma download_pending_after_end :
  (exists st,
     Download.downloadFile
       [Download.Response (Download.mkResponse 200 None);
        Download.Data (list_byte_of_string "hello"); Download.End] = JS.Normal st
     /\ Download.dest_ended st = true
     /\ Download.settled st = Promise.Pending)
  /\ (exists st,
        Download.downloadFile
          [Download.Response (Download.mkResponse 200 (Some (N.to_uint 5)));
           Download.Data (list_byte_of_string "hello"); Download.End] = JS.Normal st
        /\ Download.dest_ended st = true
        /\ Download.settled st = Promise.Pending).
Proof. split; eexists; (split; [reflexivity | split; reflexivity]). Qed.

(** C4, amended.  For every sequence of events, [downloadFile] runs its
    listeners without throwing, and it has resolved exactly when the
    request has emitted ["complete"] with no ["error"] before it, of the
    request or of the write stream; the end of the body does not settle
    it. *)
Theorem download_resolves_at_complete (tr : list Download.event) :
  exists st,
    Download.downloadFile tr = JS.Normal st
    /\ (Download.settled st = Promise.Resolved tt <-> Download.completes tr).
Proof.
  destruct (run_total tr Download.init) as [st Hrun].
  exists st. split; [exact Hrun|].
  unfold Download.downloadFile in *. split.
  - intros Hres.
    destruct (first_settling tr) as [Hall | (pre & ev & post & -> & Hpre & Hev)].
    + rewrite (proj1 (run_unsettling tr Hall _ _ Hrun)) in Hres. discriminate.
    + apply run_app_inv in Hrun as (mid & Hmid & Hrest).
      apply (run_unsettling pre Hpre) in Hmid as [Hmid Hlive].
      rewrite download_run_cons in Hrest. unfold Download.on_event in Hrest.
      rewrite Hlive in Hrest. cbn [Download.crashed Download.init] in Hrest.
      destruct ev; try discriminate Hev; cbn [JS.bind] in Hrest.
      * now exists pre, post.
      * apply download_settled_sticky in Hrest;
          cbn [Download.settled] in *; rewrite Hmid in *; cbn in *; congruence.
      * rewrite run_crashed with (e := err) in Hrest by reflexivity.
        injection Hrest as <-.
        cbn [Download.settled] in Hres. rewrite Hmid in Hres. discriminate.
  - intros (pre & post & -> & Hpre).
    apply run_app_inv in Hrun as (mid & Hmid & Hrest).
    apply (run_unsettling pre Hpre) in Hmid as [Hmid Hlive].
    rewrite download_run_cons in Hrest. unfold Download.on_event in Hrest.
    rewrite Hlive in Hrest. cbn [Download.crashed Download.init JS.bind] in Hrest.
    apply download_settled_sticky in Hrest;
      cbn [Download.settled] in *; rewrite Hmid in *; cbn in *; congruence.
Qed.

(** The response listener reads the content-length and nothing else. *)
Lemma download_status_irrelevant
  (resp : Download.response) (status : Z) (tr : list Download.event) :
  Download.downloadFile
    (Download.Response (Download.mkResponse status (Download.content_length resp)) :: tr)
  = Download.downloadFile (Download.Response resp :: tr).
Proof. reflexivity. Qed.

Lemma download_completed (resp : Download.response) (chunks : list (list Byte.byte)) :
  exists st,
    Download.downloadFile
      (Download.Response resp :: map Download.Data chunks
         ++ [Download.End; Download.Complete]) = JS.Normal st
    /\ Download.settled st = Promise.Resolved tt
    /\ Download.dest st = List.concat chunks.
Proof.
  unfold Download.downloadFile.
  rewrite download_run_cons. cbn [Download.on_event Download.crashed Download.init JS.bind].
  rewrite download_run_app.
  run_the_chunks chunks st' Hrun Hlength Hdest Hset Hlive.
  rewrite Hrun. cbn [JS.bind]. handle_events Hlive.
  eexists. split; [reflexivity|]. cbn [Download.settled Download.dest].
  rewrite Hset, Hdest. split; reflexivity.
Qed.

(** C5, as stated, fails: after a 404 the promise is resolved and the
    destination holds the body of the error page, the very bytes a 200 with
    that body leaves. *)
Lemma download_404_writes_error_body :
  exists st404 st200,
    Download.downloadFile
      [Download.Response (Download.mkResponse 404 (Some (N.to_uint 9)));
       Download.Data (list_byte_of_string "Not Found");
       Download.End; Download.Complete] = JS.Normal st404
    /\ Download.downloadFile
         [Download.Response (Download.mkResponse 200 (Some (N.to_uint 9)));
          Download.Data (list_byte_of_string "Not Found");
          Download.End; Download.Complete] = JS.Normal st200
    /\ Download.settled st404 = Promise.Resolved tt
    /\ Download.dest st404 = list_byte_of_string "Not Found"
    /\ Download.dest st404 = Download.dest st200.
Proof. do 2 eexists. repeat split; reflexivity. Qed.

(** C5, amended.  When the response has status 404 and the transfer
    completes, [downloadFile] resolves and the destination holds exactly
    the bytes of the response body; the status is not looked at: a response
    that differs in its status only leads to the same final state. *)
Theorem download_ignores_status
  (resp : Download.response) (chunks : list (list Byte.byte)) :
  Download.statusCode resp = 404 ->
  exists st,
    Download.downloadFile
      (Download.Response resp :: map Download.Data chunks
         ++ [Download.End; Download.Complete]) = JS.Normal st
    /\ Download.settled st = Promise.Resolved tt
    /\ Download.dest st = List.concat chunks
    /\ forall status,
         Download.downloadFile
           (Download.Response (Download.mkResponse status (Download.content_length resp))
              :: map Download.Data chunks ++ [Download.End; Download.Complete])
         = JS.Normal st.
Proof.
  intros _.
  destruct (download_completed resp chunks) as (st & Hrun & Hset & Hdest).
  exists st. split; [exact Hrun|]. split; [exact Hset|]. split; [exact Hdest|].
  intros status. now rewrite download_status_irrelevant.
Qed.

Lemma download_ignores_status_witness :
  exists st,
    Download.downloadFile
      (Download.Response (Download.mkResponse 404 None)
         :: map Download.Data [list_byte_of_string "Not "; list_byte_of_string "Found"]
         ++ [Download.End; Download.Complete]) = JS.Normal st
    /\ Download.settled st = Promise.Resolved tt
    /\ Download.dest st
       = List.concat [list_byte_of_string "Not "; list_byte_of_string "Found"]
    /\ forall status,
         Download.downloadFile
           (Download.Response (Download.mkResponse status None)
              :: map Download.Data [list_byte_of_string "Not "; list_byte_of_string "Found"]
              ++ [Download.End; Download.Complete])
         = JS.Normal st.
Proof.
  apply (download_ignores_status (Download.mkResponse 404 None)
           [list_byte_of_string "Not "; list_byte_of_string "Found"]).
  reflexivity.
Defined.

(** C6.  For a response without a content-length, whatever the request
    emits afterwards no listener throws; and when the body arrives in
    chunks and the transfer completes, the call resolves and each chunk has
    been reported with the text ["NaN"] as its percentage. *)
Theorem download_without_content_length (resp : Download.response) :
  Download.content_length resp = None ->
  (forall tr, exists st,
      Download.downloadFile (Download.Response resp :: tr) = JS.Normal st)
  /\ forall chunks, exists st,
       Download.downloadFile
         (Download.Response resp :: map Download.Data chunks
            ++ [Download.End; Download.Complete]) = JS.Normal st
       /\ Download.settled st = Promise.Resolved tt
       /\ Download.info st = map (fun _ => "Download status: NaN%"%string) chunks.
Proof.
  intros Hnone. split.
  - intros tr. apply run_total.
  - intros chunks. unfold Download.downloadFile.
    rewrite download_run_cons.
    cbn [Download.on_event Download.crashed Download.init JS.bind].
    rewrite download_run_app, Hnone.
    run_the_chunks chunks st' Hrun Hlength Hdest Hset Hlive.
    pose proof (run_chunks_nan chunks _ st' Hrun eq_refl eq_refl) as Hinfo.
    rewrite Hrun. cbn [JS.bind]. handle_events Hlive.
    eexists. split; [reflexivity|]. cbn [Download.settled Download.info].
    rewrite Hset, Hinfo. split; reflexivity.
Qed.

Lemma download_without_content_length_witness :
  exists st,
    Download.downloadFile
      (Download.Response (Download.mkResponse 200 None)
         :: map Download.Data [list_byte_of_string "ab"; list_byte_of_string "c"]
         ++ [Download.End; Download.Complete]) = JS.Normal st
    /\ Download.settled st = Promise.Resolved tt
    /\ Download.info st
       = map (fun _ => "Download status: NaN%"%string)
           [list_byte_of_string "ab"; list_byte_of_string "c"].
Proof.
  apply (proj2 (download_without_content_length (Download.mkResponse 200 None) eq_refl)).
Defined.

(** C7.  When the response declares a content-length [L] (its digits are
    read as [L]), with [0 < L < 2^53] so that byte counts are exact
    numbers, and the chunks received total [L] bytes, the line logged on
    the last chunk reports [100.00]. *)
Theorem final_progress_is_100
  (resp : Download.response) (digits : Decimal.uint)
  (chunks : list (list Byte.byte)) (final : list Byte.byte) :
  Download.content_length resp = Some digits ->
  0 < Z.of_N (N.of_uint digits) < 2 ^ 53 ->
  Z.of_nat (Download.total_length (chunks ++ [final])) = Z.of_N (N.of_uint digits) ->
  exists st,
    Download.downloadFile
      (Download.Response resp :: map Download.Data (chunks ++ [final])) = JS.Normal st
    /\ last (Download.info st) ""%string = "Download status: 100.00%"%string.
Proof.
  intros Hlen HL Htotal. unfold Download.downloadFile.
  rewrite download_run_cons.
  cbn [Download.on_event Download.crashed Download.init JS.bind].
  rewrite map_app, download_run_app, Hlen.
  run_the_chunks chunks st' Hrun Hcl Hdest Hset Hlive.
  pose proof (run_chunks_downloaded chunks _ st' 0 Hrun eq_refl eq_refl) as Hdl.
  rewrite Hrun. cbn [JS.bind map]. rewrite download_run_cons, (on_data st' final Hlive).
  cbn [JS.bind Download.run]. eexists. split; [reflexivity|].
  cbn [Download.info]. rewrite last_last.
  unfold Download.total_length in *.
  rewrite concat_app, length_app in Htotal. cbn [List.concat] in Htotal.
  rewrite app_nil_r in Htotal.
  rewrite Hdl by lia. rewrite Hcl. cbn [Download.contentLength Download.Number].
  unfold Num.of_nat. rewrite !num_of_Z_exact by lia.
  rewrite num_add_exact by lia.
  replace (0 + Z.of_nat (List.length (List.concat chunks)) + Z.of_nat (List.length final))
    with (Z.of_N (N.of_uint digits)) by lia.
  rewrite num_div_self by lia. reflexivity.
Qed.

Lemma final_progress_is_100_witness :
  exists st,
    Download.downloadFile
      (Download.Response (Download.mkResponse 200 (Some (N.to_uint 5)))
         :: map Download.Data ([list_byte_of_string "abc"] ++ [list_byte_of_string "de"]))
    = JS.Normal st
    /\ last (Download.info st) ""%string = "Download status: 100.00%"%string.
Proof.
  apply (final_progress_is_100 (Download.mkResponse 200 (Some (N.to_uint 5)))
           (N.to_uint 5) [list_byte_of_string "abc"] (list_byte_of_string "de")).
  - reflexivity.
  - vm_compute. split; reflexivity.
  - reflexivity.
Defined.

(** * [exit] *)

(** C8, as stated, fails: a call can pass a message and have nothing
    written.  With the empty string as message, as [get_fab_version] passes
    it for a release whose tag is empty, the test [if (message)] fails and
    both streams stay as they were, for code 0 and for code 1 alike. *)
Lemma exit_drops_empty_message :
  @Process.exit unit 0 (Some (inl ""%string)) (Process.mkConsole [] [])
  = (Process.mkConsole [] [], Process.Exited 0)
  /\ @Process.exit unit 1 (Some (inl ""%string)) (Process.mkConsole [] [])
     = (Process.mkConsole [] [], Process.Exited 1)
  /\ Process.info_stream
       (fst (@Process.exit unit 0 (Some (inl ""%string)) (Process.mkConsole [] [])))
     <> [Process.PText ""%string].
Proof. repeat split. discriminate. Qed.

(** C8, amended.  For a call [exit(code, message)] whose message is a
    non-empty string or an [Error]: when [code] is 0 the message itself,
    the string or the [Error] object, is written to the informational
    stream; otherwise its text, the string or the [message] of the
    [Error], is written to the error stream; nothing else is written.  For
    the empty string nothing is written.  In every case the process then
    terminates with exactly [code]. *)
Theorem exit_writes_message_then_terminates
  (A : Type) (code : Z) (c : Process.console) :
  (forall s : string,
      s <> ""%string ->
      (code = 0 ->
       @Process.exit A code (Some (inl s)) c
       = (Process.mkConsole (Process.info_stream c ++ [Process.PText s])
            (Process.error_stream c),
          Process.Exited 0))
      /\ (code <> 0 ->
          @Process.exit A code (Some (inl s)) c
          = (Process.mkConsole (Process.info_stream c)
               (Process.error_stream c ++ [Process.PText s]),
             Process.Exited code)))
  /\ (forall (kind : JS.error_kind) (text : string),
        (code = 0 ->
         @Process.exit A code (Some (inr (JS.mkExn kind text))) c
         = (Process.mkConsole
              (Process.info_stream c ++ [Process.PError (JS.mkExn kind text)])
              (Process.error_stream c),
            Process.Exited 0))
        /\ (code <> 0 ->
            @Process.exit A code (Some (inr (JS.mkExn kind text))) c
            = (Process.mkConsole (Process.info_stream c)
                 (Process.error_stream c ++ [Process.PText text]),
               Process.Exited code)))
  /\ @Process.exit A code (Some (inl ""%string)) c = (c, Process.Exited code).
Proof.
  split; [|split].
  - intros s Hs. apply String.eqb_neq in Hs.
    unfold Process.exit, Process.truthy. rewrite Hs. cbn [negb]. split.
    + intros ->. reflexivity.
    + intros Hcode. apply Z.eqb_neq in Hcode. rewrite Hcode. reflexivity.
  - intros kind text. unfold Process.exit, Process.truthy. split.
    + intros ->. reflexivity.
    + intros Hcode. apply Z.eqb_neq in Hcode. rewrite Hcode. reflexivity.
  - reflexivity.
Qed.

Lemma exit_writes_message_then_terminates_witness :
  @Process.exit unit 1 (Some (inl "helm executable not found in $PATH"%string))
    (Process.mkConsole [] [])
  = (Process.mkConsole []
       ([] ++ [Process.PText "helm executable not found in $PATH"%string]),
     Process.Exited 1).
Proof.
  apply (proj2 (proj1 (exit_writes_message_then_terminates unit 1
                         (Process.mkConsole [] []))
                  "helm executable not found in $PATH"%string
                  ltac:(discriminate))).
  discriminate.
Defined.

(** * Release lookups *)

Section ReleasesFacts.

Import JS Process Releases.

Variable JSON_stringify : value -> string.
Variable axios_get : string -> axios_result.

(** [getFabrikateVersion] is [getLatestGitTag] at the Fabrikate URL, with a
    handler on its rejections. *)
Lemma getFabrikateVersion_unfold :
  getFabrikateVersion JSON_stringify axios_get
  = catch (getLatestGitTag JSON_stringify axios_get fabReleases)
      (fun err =>
         Process.bind (console_error (PError err)) (fun _ =>
         exit 1 (Some (inl ("Error fetching releases page from " ++ fabReleases)%string)))).
Proof. reflexivity. Qed.

(** A handler that ends in [exit] does not return. *)
Lemma catch_returned {A} (m : proc A) (handler : JS.exn -> proc A) (c c' : console) (a : A) :
  (forall err c1 c2 b, handler err c1 <> (c2, Returned b)) ->
  catch m handler c = (c', Returned a) <-> m c = (c', Returned a).
Proof.
  intros Hnever. unfold catch. destruct (m c) as [c1 [b|e|code]]; try tauto.
  split; [intros H; now apply Hnever in H | discriminate].
Qed.

Lemma assertHasTagName_cases (v : value) :
  (has_string_tag_name v /\ assertHasTagName JSON_stringify v = Normal tt)
  \/ (v = VNull
      /\ assertHasTagName JSON_stringify v
         = Throw (mkExn TypeError "Cannot read property 'tag_name' of null"))
  \/ (v <> VNull /\ ~ has_string_tag_name v
      /\ assertHasTagName JSON_stringify v
         = Throw (mkExn PlainError ("Property tag_name not found in " ++ JSON_stringify v))).
Proof.
  destruct v as [| |b|x|s|items|props];
    try (right; right; repeat split;
         [discriminate | intros (props' & s' & Hv & _); discriminate Hv]).
  - right. left. split; reflexivity.
  - unfold assertHasTagName. cbn [typeof String.eqb Ascii.eqb Bool.eqb tag_name_of JS.bind].
    destruct (lookup "tag_name" props) as [| |b|x|s|items|props'] eqn:Hlook;
      try (right; right; repeat split;
           [discriminate
           | intros (props0 & s0 & Hv & Hs); injection Hv as <-; congruence]).
    left. split; [now exists props, s | reflexivity].
Qed.

End ReleasesFacts.

(** C9.  The module-level [assertHasTagName] and the copy declared inside
    [getFabrikateVersion] give the same completion on every value: the same
    values are accepted, and a rejection throws the same error.  Hence
    [getFabrikateVersion] returns a tag exactly when [getLatestGitTag], at
    the Fabrikate releases URL and on the same response, returns it. *)
Theorem tag_name_validators_agree
  (JSON_stringify : JS.value -> string) (axios_get : string -> Releases.axios_result) :
  (forall v,
      Releases.assertHasTagName JSON_stringify v
      = Releases.getFabrikateVersion_assertHasTagName JSON_stringify v)
  /\ forall c c' tag,
       Releases.getFabrikateVersion JSON_stringify axios_get c
       = (c', Process.Returned tag)
       <-> Releases.getLatestGitTag JSON_stringify axios_get Releases.fabReleases c
           = (c', Process.Returned tag).
Proof.
  split; [reflexivity|].
  intros c c' tag. rewrite getFabrikateVersion_unfold.
  apply catch_returned. intros err c1 c2 b. discriminate.
Qed.

(** C10.  [assertHasTagName] returns normally exactly on the non-null
    objects whose [tag_name] is a string, and throws on every other value.
    On [null] what is thrown is the [TypeError] of the property read, not
    the error the function builds; every other rejected value gets
    ["Property tag_name not found in ..."]. *)
Theorem assertHasTagName_accepts_iff (JSON_stringify : JS.value -> string) :
  (forall v,
      Releases.assertHasTagName JSON_stringify v = JS.Normal tt
      <-> Releases.has_string_tag_name v)
  /\ (forall v,
         ~ Releases.has_string_tag_name v ->
         exists e, Releases.assertHasTagName JSON_stringify v = JS.Throw e)
  /\ (exists e,
         Releases.assertHasTagName JSON_stringify JS.VNull = JS.Throw e
         /\ JS.kind e = JS.TypeError
         /\ e <> JS.mkExn JS.PlainError
                   ("Property tag_name not found in " ++ JSON_stringify JS.VNull))
  /\ (forall v,
         v <> JS.VNull ->
         ~ Releases.has_string_tag_name v ->
         Releases.assertHasTagName JSON_stringify v
         = JS.Throw (JS.mkExn JS.PlainError
                       ("Property tag_name not found in " ++ JSON_stringify v))).
Proof.
  repeat split.
  - intros Hok.
    destruct (assertHasTagName_cases JSON_stringify v)
      as [[Hv _] | [[_ Hthrow] | (_ & _ & Hthrow)]]; [exact Hv | congruence | congruence].
  - intros Hv.
    destruct (assertHasTagName_cases JSON_stringify v)
      as [[_ Hok] | [[-> _] | (_ & Hnot & _)]]; [exact Hok | | contradiction].
    destruct Hv as (props & s & Hnull & _). discriminate Hnull.
  - intros v Hnot.
    destruct (assertHasTagName_cases JSON_stringify v)
      as [[Hv _] | [[_ Hthrow] | (_ & _ & Hthrow)]]; [contradiction | | ]; eauto.
  - eexists. split; [reflexivity|]. split; [reflexivity | discriminate].
  - intros v Hnull Hnot.
    destruct (assertHasTagName_cases JSON_stringify v)
      as [[Hv _] | [[-> _] | (_ & _ & Hthrow)]]; [contradiction | congruence | exact Hthrow].
Qed.

Lemma assertHasTagName_accepts_iff_witness :
  Releases.assertHasTagName (fun _ => "[1]"%string) (JS.VArray [JS.VNumber (Num.of_Z 1)])
  = JS.Throw (JS.mkExn JS.PlainError ("Property tag_name not found in " ++ "[1]")).
Proof.
  apply (proj2 (proj2 (proj2 (assertHasTagName_accepts_iff (fun _ => "[1]"%string))))
           (JS.VArray [JS.VNumber (Num.of_Z 1)])).
  - discriminate.
  - intros (props & s & Hv & _). discriminate Hv.
Defined.

(** * Further properties of the subprocess runner *)

(** X1.  The promise of [spawn] is pending exactly as long as the handle has
    emitted data only: output alone never settles the call. *)
Theorem spawn_pending_iff_only_data (tr : list Spawn.event) :
  Spawn.spawn tr = Promise.Pending <-> forallb Spawn.is_data tr = true.
Proof.
  split.
  - intros Hpending.
    destruct (first_settling_event tr) as [Hall | (pre & ev & post & -> & Hpre & Hev)];
      [exact Hall|].
    destruct ev as [d|d|e|c]; try discriminate Hev.
    + rewrite (spawn_error pre post e Hpre) in Hpending. discriminate.
    + rewrite (spawn_exit pre post c Hpre) in Hpending. discriminate.
  - apply spawn_data.
Qed.

(** X2.  A settled call stays settled: whatever the handle emits after the
    first ["error"] or ["exit"] (a second exit, an error after the exit,
    late output), the promise keeps its outcome. *)
Theorem spawn_settles_once (tr more : list Spawn.event) :
  Spawn.spawn tr <> Promise.Pending ->
  Spawn.spawn (tr ++ more) = Spawn.spawn tr.
Proof.
  intros Hsettled. unfold Spawn.spawn in *.
  rewrite spawn_run_app. now apply spawn_settled_sticky.
Qed.

Lemma spawn_settles_once_witness :
  Spawn.spawn ([Spawn.ExitEvent (Some 0)]
                 ++ [Spawn.ErrorEvent (JS.mkExn JS.PlainError "late"); Spawn.ExitEvent (Some 1)])
  = Spawn.spawn [Spawn.ExitEvent (Some 0)].
Proof.
  apply (spawn_settles_once [Spawn.ExitEvent (Some 0)]
           [Spawn.ErrorEvent (JS.mkExn JS.PlainError "late"); Spawn.ExitEvent (Some 1)]).
  discriminate.
Defined.

(** * Further properties of the file fetcher *)

Lemma write_fails_cons (ev : Download.event) (tr : list Download.event) (err : JS.exn) :
  Fetch.write_error ev = false ->
  (Fetch.write_fails (ev :: tr) err <-> Fetch.write_fails tr err).
Proof.
  intros Hev. split.
  - intros (pre & post & Htr & Hpre). destruct pre as [|x pre]; cbn in Htr.
    + injection Htr as -> _. discriminate Hev.
    + injection Htr as <- ->. cbn in Hpre. apply andb_prop in Hpre as [_ Hpre].
      now exists pre, post.
  - intros (pre & post & -> & Hpre). exists (ev :: pre), post. cbn.
    now rewrite Hev, Hpre.
Qed.

Lemma write_fails_head (e err : JS.exn) (tr : list Download.event) :
  Fetch.write_fails (Download.WriteError e :: tr) err <-> e = err.
Proof.
  split.
  - intros (pre & post & Htr & Hpre). destruct pre as [|x pre]; cbn in Htr.
    + now injection Htr as ->.
    + injection Htr as <- _. discriminate Hpre.
  - intros ->. now exists [], tr.
Qed.

(** What a run from a live state leaves: the chunks forwarded while the
    pipe is attached, a line for every chunk handled, and the first error
    of the write stream. *)
Lemma run_pipe (tr : list Download.event) :
  forall st st',
    Download.run st tr = JS.Normal st' ->
    Download.crashed st = None ->
    Download.dest st'
    = (Download.dest st
         ++ (if Download.piped st
             then List.concat (Fetch.chunks_of (Fetch.before Fetch.detaches tr))
             else []))%list
    /\ List.length (Download.info st')
       = (List.length (Download.info st)
          + List.length (Fetch.chunks_of (Fetch.before Fetch.write_error tr)))%nat
    /\ forall err, Download.crashed st' = Some err <-> Fetch.write_fails tr err.
Proof.
  induction tr as [|ev tr IH]; intros st st' Hrun Hlive.
  - cbn in Hrun. injection Hrun as <-. cbn. rewrite Hlive.
    split; [destruct (Download.piped st); now rewrite app_nil_r|].
    split; [lia|]. intros err. split; [discriminate|].
    intros (pre & post & Htr & _). now destruct pre.
  - rewrite download_run_cons in Hrun. unfold Download.on_event in Hrun.
    rewrite Hlive in Hrun.
    destruct ev as [resp|chunk| | |e|e];
      cbn [JS.toFixed Z.ltb Z.compare orb JS.bind] in Hrun;
      try (apply IH in Hrun; [|reflexivity];
           destruct Hrun as (Hdest & Hinfo & Hgone);
           cbn [Download.dest Download.info Download.piped] in Hdest, Hinfo;
           cbn [Fetch.before Fetch.detaches Fetch.write_error Fetch.chunks_of
                List.concat List.length];
           split; [|split; [|intros err; rewrite write_fails_cons by reflexivity;
                             apply Hgone]]).
    + exact Hdest.
    + exact Hinfo.
    + rewrite Hdest. destruct (Download.piped st); [now rewrite <- app_assoc | reflexivity].
    + rewrite Hinfo, length_app. cbn [List.length]. lia.
    + rewrite Hdest. destruct (Download.piped st); reflexivity.
    + exact Hinfo.
    + exact Hdest.
    + exact Hinfo.
    + rewrite Hdest. destruct (Download.piped st); reflexivity.
    + exact Hinfo.
    + rewrite run_crashed with (e := e) in Hrun by reflexivity. injection Hrun as <-.
      cbn [Download.dest Download.info Download.crashed Fetch.before Fetch.detaches
           Fetch.write_error Fetch.chunks_of List.concat List.length].
      split; [destruct (Download.piped st); now rewrite app_nil_r|].
      split; [lia|]. intros err. rewrite write_fails_head. split; congruence.
Qed.

(** X3.  Whatever is emitted, no listener throws.  The pipe hands the
    write stream the chunks that arrive before the first ["end"] or
    ["error"] of the request (and before the write stream fails), in
    order and nothing else; the listener on ["data"] stays and logs one
    line for every chunk handled, forwarded or not.  An error of the write
    stream ends the process as an uncaught exception: it is not turned into
    a rejection, the promise is left pending. *)
Theorem download_pipes_until_end_or_error (tr : list Download.event) :
  exists st,
    Download.downloadFile tr = JS.Normal st
    /\ Download.dest st
       = List.concat (Fetch.chunks_of (Fetch.before Fetch.detaches tr))
    /\ List.length (Download.info st)
       = List.length (Fetch.chunks_of (Fetch.before Fetch.write_error tr))
    /\ (forall err, Download.crashed st = Some err <-> Fetch.write_fails tr err)
    /\ (forall err, Fetch.crashes_with tr err -> Download.settled st = Promise.Pending).
Proof.
  destruct (run_total tr Download.init) as [st Hrun].
  exists st. split; [exact Hrun|]. unfold Download.downloadFile in Hrun.
  destruct (run_pipe tr _ _ Hrun eq_refl) as (Hdest & Hinfo & Hgone).
  split; [exact Hdest|]. split; [exact Hinfo|]. split; [exact Hgone|].
  intros err (pre & post & -> & Hpre).
  apply run_app_inv in Hrun as (mid & Hmid & Hrest).
  apply (run_unsettling pre Hpre) in Hmid as [Hmid Hlive].
  rewrite download_run_cons in Hrest. unfold Download.on_event in Hrest.
  rewrite Hlive in Hrest. cbn [Download.crashed Download.init JS.bind] in Hrest.
  rewrite run_crashed with (e := err) in Hrest by reflexivity.
  injection Hrest as <-. exact Hmid.
Qed.

(** X4.  [downloadFile] has rejected exactly when the request has emitted
    ["error"] with no ["complete"], and no error of the write stream,
    before it, and then with that error. *)
Theorem download_rejects_iff_error_first (tr : list Download.event) :
  exists st,
    Download.downloadFile tr = JS.Normal st
    /\ forall err,
         Download.settled st = Promise.Rejected err <-> Fetch.fails_with tr err.
Proof.
  destruct (run_total tr Download.init) as [st Hrun].
  exists st. split; [exact Hrun|].
  unfold Download.downloadFile in *. intros err. split.
  - intros Hrej.
    destruct (first_settling tr) as [Hall | (pre & ev & post & -> & Hpre & Hev)].
    + rewrite (proj1 (run_unsettling tr Hall _ _ Hrun)) in Hrej. discriminate.
    + apply run_app_inv in Hrun as (mid & Hmid & Hrest).
      apply (run_unsettling pre Hpre) in Hmid as [Hmid Hlive].
      rewrite download_run_cons in Hrest. unfold Download.on_event in Hrest.
      rewrite Hlive in Hrest. cbn [Download.crashed Download.init] in Hrest.
      destruct ev; try discriminate Hev; cbn [JS.bind] in Hrest.
      * apply download_settled_sticky in Hrest;
          cbn [Download.settled] in *; rewrite Hmid in *; cbn in *; congruence.
      * apply download_settled_sticky in Hrest;
          cbn [Download.settled] in *; rewrite Hmid in *; cbn in *; try congruence.
        assert (err0 = err) as -> by congruence. now exists pre, post.
      * rewrite run_crashed with (e := err0) in Hrest by reflexivity.
        injection Hrest as <-.
        cbn [Download.settled] in Hrej. rewrite Hmid in Hrej. discriminate.
  - intros (pre & post & -> & Hpre).
    apply run_app_inv in Hrun as (mid & Hmid & Hrest).
    apply (run_unsettling pre Hpre) in Hmid as [Hmid Hlive].
    rewrite download_run_cons in Hrest. unfold Download.on_event in Hrest.
    rewrite Hlive in Hrest. cbn [Download.crashed Download.init JS.bind] in Hrest.
    apply download_settled_sticky in Hrest;
      cbn [Download.settled] in *; rewrite Hmid in *; cbn in *; congruence.
Qed.

Lemma div_exact_zero (n : Z) :
  0 < n -> Num.div (Num.exact n) (Num.of_Z 0) = S754_infinity false.
Proof.
  intros Hn. unfold Num.exact. destruct (Z.eqb_spec n 0); [lia | reflexivity].
Qed.

(** With a declared length of zero every chunk is reported as
    ["Infinity"], once something has been received. *)
Lemma run_chunks_infinity (chunks : list (list Byte.byte)) :
  forall st st' d,
    Download.run st (map Download.Data chunks) = JS.Normal st' ->
    Download.crashed st = None ->
    Download.contentLength st = Num.of_Z 0 ->
    Download.downloaded st = Num.exact d ->
    0 < d ->
    d + Z.of_nat (Download.total_length chunks) < 2 ^ 53 ->
    Download.info st'
    = (Download.info st
         ++ map (fun _ => "Download status: Infinity%"%string) chunks)%list.
Proof.
  unfold Download.total_length.
  induction chunks as [|c chunks IH]; intros st st' d Hrun Hlive Hzero Hd Hpos Hsafe.
  - cbn in Hrun. injection Hrun as <-. cbn. now rewrite app_nil_r.
  - cbn [map] in Hrun. rewrite download_run_cons, (on_data st c Hlive) in Hrun.
    cbn [JS.bind] in Hrun. cbn [List.concat] in Hsafe. rewrite length_app in Hsafe.
    assert (Hadd : Num.add (Download.downloaded st) (Num.of_nat (List.length c))
                   = Num.exact (d + Z.of_nat (List.length c))).
    { rewrite Hd. unfold Num.of_nat. rewrite num_of_Z_exact by lia.
      apply num_add_exact; lia. }
    apply (IH _ _ (d + Z.of_nat (List.length c))) in Hrun;
      [ | reflexivity | exact Hzero | exact Hadd | lia | cbn [Download.downloaded]; lia ].
    rewrite Hrun. cbn [Download.info map]. rewrite Hadd, Hzero.
    rewrite div_exact_zero by lia. rewrite <- app_assoc. reflexivity.
Qed.

(** X5.  When the declared content-length is zero, or when data arrives
    before any response (the length is still its initial 0), the
    percentage divides by zero: for a non-empty first chunk (and byte
    counts below 2^53) every chunk is reported as ["Infinity"], and no
    listener throws. *)
Theorem download_reports_infinity_for_zero_length
  (first : list Byte.byte) (chunks : list (list Byte.byte)) :
  first <> [] ->
  Z.of_nat (Download.total_length (first :: chunks)) < 2 ^ 53 ->
  (forall resp digits,
      Download.content_length resp = Some digits ->
      N.of_uint digits = 0%N ->
      exists st,
        Download.downloadFile
          (Download.Response resp :: map Download.Data (first :: chunks)) = JS.Normal st
        /\ Download.info st
           = map (fun _ => "Download status: Infinity%"%string) (first :: chunks))
  /\ exists st,
       Download.downloadFile (map Download.Data (first :: chunks)) = JS.Normal st
       /\ Download.info st
          = map (fun _ => "Download status: Infinity%"%string) (first :: chunks).
Proof.
  intros Hfirst Hsafe.
  assert (Hlen : 0 < Z.of_nat (List.length first))
    by (destruct first; [contradiction | cbn [List.length]; lia]).
  assert (Hsplit : Z.of_nat (List.length first) + Z.of_nat (Download.total_length chunks)
                   < 2 ^ 53).
  { unfold Download.total_length in *. cbn [List.concat] in Hsafe.
    rewrite length_app in Hsafe. lia. }
  assert (Hgen : forall st,
             Download.crashed st = None ->
             Download.contentLength st = Num.of_Z 0 ->
             Download.downloaded st = Num.exact 0 ->
             Download.info st = [] ->
             exists st',
               Download.run st (map Download.Data (first :: chunks)) = JS.Normal st'
               /\ Download.info st'
                  = map (fun _ => "Download status: Infinity%"%string) (first :: chunks)).
  { intros st Hlive Hzero Hd Hinfo.
    destruct (run_total (map Download.Data (first :: chunks)) st) as [st' Hrun].
    exists st'. split; [exact Hrun|].
    cbn [map] in Hrun. rewrite download_run_cons, (on_data st first Hlive) in Hrun.
    cbn [JS.bind] in Hrun.
    assert (Hadd : Num.add (Download.downloaded st) (Num.of_nat (List.length first))
                   = Num.exact (Z.of_nat (List.length first))).
    { rewrite Hd. unfold Num.of_nat. rewrite num_of_Z_exact by lia.
      rewrite num_add_exact by lia. reflexivity. }
    apply (run_chunks_infinity chunks _ st' (Z.of_nat (List.length first))) in Hrun;
      [ | reflexivity | exact Hzero | exact Hadd | exact Hlen | exact Hsplit ].
    rewrite Hrun. cbn [Download.info map]. rewrite Hadd, Hzero, Hinfo.
    rewrite div_exact_zero by lia. reflexivity. }
  split.
  - intros resp digits Hcl Hdigits. unfold Download.downloadFile.
    rewrite download_run_cons.
    cbn [Download.on_event Download.crashed Download.init JS.bind].
    apply Hgen; cbn [Download.contentLength Download.downloaded Download.info].
    + reflexivity.
    + rewrite Hcl. cbn [Download.Number]. now rewrite Hdigits.
    + reflexivity.
    + reflexivity.
  - apply Hgen; reflexivity.
Qed.

Lemma download_reports_infinity_for_zero_length_witness :
  exists st,
    Download.downloadFile
      (map Download.Data [list_byte_of_string "ab"; list_byte_of_string "c"]) = JS.Normal st
    /\ Download.info st
       = map (fun _ => "Download status: Infinity%"%string)
           [list_byte_of_string "ab"; list_byte_of_string "c"].
Proof.
  apply (proj2 (download_reports_infinity_for_zero_length
                  (list_byte_of_string "ab") [list_byte_of_string "c"]
                  ltac:(discriminate) ltac:(vm_compute; reflexivity))).
Defined.

(** * Further properties of [exit] *)

(** X6.  [exit] called without a message, or with the empty string, writes
    nothing to either stream; the process terminates with the code. *)
Theorem exit_without_message_is_silent
  (A : Type) (code : Z) (message : Process.message_arg) (c : Process.console) :
  Process.truthy message = false ->
  @Process.exit A code message c = (c, Process.Exited code).
Proof. intros Hfalsy. unfold Process.exit. now rewrite Hfalsy. Qed.

Lemma exit_without_message_is_silent_witness :
  @Process.exit unit 0 (Some (inl ""%string)) (Process.mkConsole [] [])
  = (Process.mkConsole [] [], Process.Exited 0).
Proof.
  apply (exit_without_message_is_silent unit 0 (Some (inl ""%string))
           (Process.mkConsole [] [])).
  reflexivity.
Defined.

(** X7.  [exit] always terminates the process with the code it is given,
    and writes at most one entry: with code 0 the error stream is left as
    it was, with any other code the informational stream is. *)
Theorem exit_writes_to_one_stream
  (A : Type) (code : Z) (message : Process.message_arg) (c : Process.console) :
  exists c',
    @Process.exit A code message c = (c', Process.Exited code)
    /\ (code = 0 -> Process.error_stream c' = Process.error_stream c)
    /\ (code <> 0 -> Process.info_stream c' = Process.info_stream c)
    /\ (List.length (Process.info_stream c') + List.length (Process.error_stream c')
        <= List.length (Process.info_stream c) + List.length (Process.error_stream c) + 1)%nat.
Proof.
  unfold Process.exit.
  destruct (Process.truthy message) eqn:Hpresent.
  - destruct message as [m|]; [|discriminate Hpresent].
    destruct (Z.eqb_spec code 0) as [->|Hcode]; eexists; (split; [reflexivity|]);
      cbn [Process.info_stream Process.error_stream]; rewrite ?length_app;
      cbn [List.length]; repeat split; intros; try reflexivity; try lia; contradiction.
  - exists c. repeat split; lia.
Qed.

(** * [assertIsTruthyString] *)

(** X8.  [assertIsTruthyString] returns normally exactly on the non-empty
    strings; on every other value, [null] and [undefined] included, it
    throws a [TypeError] whose message ends with the value as a template
    string renders it. *)
Theorem assertIsTruthyString_accepts_iff (display : JS.value -> string) (v : JS.value) :
  (Helpers.assertIsTruthyString display v = JS.Normal tt
   <-> exists s, v = JS.VString s /\ s <> ""%string)
  /\ ((forall s, v = JS.VString s -> s = ""%string) ->
      Helpers.assertIsTruthyString display v
      = JS.Throw
          (JS.mkExn JS.TypeError
             ("Expected a string of length greater than zero; Zero-length string or non-string provided: "
                ++ Helpers.template_text display v))).
Proof.
  unfold Helpers.assertIsTruthyString.
  destruct v as [| |b|x|s|items|props]; cbn [JS.typeof Helpers.truthy_value];
    try (split; [split; [discriminate | intros (s0 & Hv & _); discriminate Hv]
                | reflexivity]).
  cbn [String.eqb Ascii.eqb Bool.eqb andb]. unfold Helpers.nonempty.
  destruct (String.eqb_spec s "") as [->|Hne]; cbn [negb].
  - split; [|reflexivity]. split; [discriminate|].
    intros (s0 & Hv & Hs). injection Hv as <-. contradiction.
  - split.
    + split; [intros _; now exists s | reflexivity].
    + intros Hall. now specialize (Hall s eq_refl).
Qed.

Lemma assertIsTruthyString_accepts_iff_witness :
  Helpers.assertIsTruthyString (fun _ => "[object Object]"%string) JS.VUndefined
  = JS.Throw
      (JS.mkExn JS.TypeError
         ("Expected a string of length greater than zero; Zero-length string or non-string provided: "
            ++ Helpers.template_text (fun _ => "[object Object]"%string) JS.VUndefined)).
Proof.
  apply (proj2 (assertIsTruthyString_accepts_iff (fun _ => "[object Object]"%string)
                  JS.VUndefined)).
  intros s Hv. discriminate Hv.
Defined.

(** * Further properties of the release lookups *)

Section ReleasesMore.

Import JS Process Releases.

Variable JSON_stringify : value -> string.
Variable axios_get : string -> axios_result.

(** What [getLatestGitTag] does, case by case. *)
Lemma getLatestGitTag_cases (url : string) (c : console) :
  (exists err, axios_get url = AxiosRejected err
               /\ getLatestGitTag JSON_stringify axios_get url c = (c, Thrown err))
  \/ (exists resp, axios_get url = AxiosResolved resp /\ status resp <> 200
        /\ getLatestGitTag JSON_stringify axios_get url c
           = (mkConsole (info_stream c)
                (error_stream c
                   ++ [PText ("Non-200 (" ++ show_status (status resp)
                                ++ ") response returned from " ++ url)]),
              Exited 1))
  \/ (exists resp e, axios_get url = AxiosResolved resp /\ status resp = 200
        /\ ~ has_string_tag_name (data resp)
        /\ getLatestGitTag JSON_stringify axios_get url c = (c, Thrown e))
  \/ (exists resp props s, axios_get url = AxiosResolved resp /\ status resp = 200
        /\ data resp = VObject props /\ lookup "tag_name" props = VString s
        /\ getLatestGitTag JSON_stringify axios_get url c = (c, Returned (VString s))).
Proof.
  unfold getLatestGitTag. destruct (axios_get url) as [resp|err] eqn:Hget.
  - destruct (Z.eqb_spec (status resp) 200) as [H200|Hnot].
    + destruct (assertHasTagName_cases JSON_stringify (data resp))
        as [[Hv Hok] | [[Hnull Hthrow] | (Hnn & Hnot & Hthrow)]].
      * right. right. right. destruct Hv as (props & s & Hdata & Hlook).
        exists resp, props, s. repeat split; auto.
        unfold Process.bind, await, ret, Process.lift. cbn.
        rewrite H200. cbn. rewrite Hok. rewrite Hdata. cbn. now rewrite Hlook.
      * right. right. left. eexists resp, _. repeat split; auto.
        -- intros (props & s & Hv & _). congruence.
        -- unfold Process.bind, await, ret, Process.lift. cbn.
           rewrite H200. cbn. rewrite Hthrow. reflexivity.
      * right. right. left. eexists resp, _. repeat split; auto.
        unfold Process.bind, await, ret, Process.lift. cbn.
        rewrite H200. cbn. rewrite Hthrow. reflexivity.
    + right. left. exists resp. repeat split; auto.
      unfold Process.bind, await, ret. cbn.
      apply Z.eqb_neq in Hnot. rewrite Hnot. reflexivity.
  - left. exists err. split; reflexivity.
Qed.

End ReleasesMore.

(** X9.  [getLatestGitTag] returns a value exactly when the request
    resolved with status 200 and a body that is an object with a string
    [tag_name]; what it returns is that string, and nothing has been
    written to the console. *)
Theorem getLatestGitTag_returns_iff
  (JSON_stringify : JS.value -> string) (axios_get : string -> Releases.axios_result)
  (url : string) (c c' : Process.console) (v : JS.value) :
  Releases.getLatestGitTag JSON_stringify axios_get url c = (c', Process.Returned v)
  <-> c' = c
      /\ exists resp props s,
           axios_get url = Releases.AxiosResolved resp
           /\ Releases.status resp = 200
           /\ Releases.data resp = JS.VObject props
           /\ JS.lookup "tag_name" props = JS.VString s
           /\ v = JS.VString s.
Proof.
  destruct (getLatestGitTag_cases JSON_stringify axios_get url c)
    as [(err & Hget & Hrun) | [(resp & Hget & Hst & Hrun)
        | [(resp & e & Hget & Hst & Hnot & Hrun)
          | (resp & props & s & Hget & Hst & Hdata & Hlook & Hrun)]]];
    rewrite Hrun; split.
  - discriminate.
  - intros (_ & resp & props & s & Hget' & _). congruence.
  - discriminate.
  - intros (_ & resp' & props & s & Hget' & Hst' & _). congruence.
  - discriminate.
  - intros (_ & resp' & props & s & Hget' & _ & Hdata & Hlook & _).
    exfalso. apply Hnot. exists props, s. split; congruence.
  - intros H. injection H as <- <-. split; [reflexivity|].
    exists resp, props, s. auto.
  - intros (-> & resp' & props' & s' & Hget' & _ & Hdata' & Hlook' & ->).
    repeat f_equal.
    assert (resp' = resp) as -> by congruence.
    assert (props' = props) as -> by congruence. congruence.
Qed.

(** X10.  When the request resolves with a status other than 200,
    [getLatestGitTag] ends the process with code 1 after writing
    ["Non-200 (status) response returned from url"] to the error stream;
    the body is not looked at. *)
Theorem getLatestGitTag_non_200_exits
  (JSON_stringify : JS.value -> string) (axios_get : string -> Releases.axios_result)
  (url : string) (c : Process.console) (resp : Releases.axios_response) :
  axios_get url = Releases.AxiosResolved resp ->
  Releases.status resp <> 200 ->
  Releases.getLatestGitTag JSON_stringify axios_get url c
  = (Process.mkConsole (Process.info_stream c)
       (Process.error_stream c
          ++ [Process.PText ("Non-200 (" ++ Releases.show_status (Releases.status resp)
                               ++ ") response returned from " ++ url)]),
     Process.Exited 1).
Proof.
  intros Hget Hst.
  destruct (getLatestGitTag_cases JSON_stringify axios_get url c)
    as [(err & Hget' & Hrun) | [(resp' & Hget' & Hst' & Hrun)
        | [(resp' & e & Hget' & Hst' & Hnot & Hrun)
          | (resp' & props & s & Hget' & Hst' & Hdata & Hlook & Hrun)]]];
    congruence.
Qed.

Lemma getLatestGitTag_non_200_exits_witness :
  Releases.getLatestGitTag (fun _ => "null"%string)
    (fun _ => Releases.AxiosResolved (Releases.mkAxiosResponse 204 JS.VNull))
    "https://example.org/latest" (Process.mkConsole [] [])
  = (Process.mkConsole []
       ([] ++ [Process.PText ("Non-200 (" ++ Releases.show_status 204
                                ++ ") response returned from "
                                ++ "https://example.org/latest")]),
     Process.Exited 1).
Proof.
  apply (getLatestGitTag_non_200_exits (fun _ => "null"%string)
           (fun _ => Releases.AxiosResolved (Releases.mkAxiosResponse 204 JS.VNull))
           "https://example.org/latest" (Process.mkConsole [] [])
           (Releases.mkAxiosResponse 204 JS.VNull)).
  - reflexivity.
  - discriminate.
Defined.

(** X11.  [getLatestGitTag] passes a failure of the request or of the
    validation on to its caller as a rejection, console untouched, while
    [getFabrikateVersion] never rejects: it either returns a string tag,
    having written nothing, or ends the process with code 1. *)
Theorem getFabrikateVersion_never_rejects
  (JSON_stringify : JS.value -> string) (axios_get : string -> Releases.axios_result)
  (c : Process.console) :
  (forall url err,
      axios_get url = Releases.AxiosRejected err ->
      Releases.getLatestGitTag JSON_stringify axios_get url c = (c, Process.Thrown err))
  /\ ((exists s,
          Releases.getFabrikateVersion JSON_stringify axios_get c
          = (c, Process.Returned (JS.VString s)))
      \/ exists c',
           Releases.getFabrikateVersion JSON_stringify axios_get c
           = (c', Process.Exited 1)).
Proof.
  split.
  - intros url err Hget. unfold Releases.getLatestGitTag. now rewrite Hget.
  - rewrite getFabrikateVersion_unfold. unfold Process.catch.
    destruct (getLatestGitTag_cases JSON_stringify axios_get Releases.fabReleases c)
      as [(err & Hget & Hrun) | [(resp & Hget & Hst & Hrun)
          | [(resp & e & Hget & Hst & Hnot & Hrun)
            | (resp & props & s & Hget & Hst & Hdata & Hlook & Hrun)]]];
      rewrite Hrun.
    + right. eexists. reflexivity.
    + right. eexists. reflexivity.
    + right. eexists. reflexivity.
    + left. exists s. reflexivity.
Qed.

(** * The regular expressions, [replace] and [split] *)

Lemma string_app_assoc (a b c : string) :
  ((a ++ b) ++ c)%string = (a ++ (b ++ c))%string.
Proof. apply append_assoc. Qed.

(** A literal matches a head that equals it up to case. *)
Lemma match_at_lit_head {A} (w mid rest : string) (k : string -> option A) :
  Text.ci_equal w mid = true ->
  Text.match_at (Text.lit w) (mid ++ rest) k = k rest.
Proof.
  revert mid. induction w as [|c w IH]; intros mid Heq; destruct mid as [|d mid];
    try discriminate Heq; [reflexivity|].
  cbn in Heq. apply andb_prop in Heq as [Hc Hw].
  cbn [Text.lit Text.match_at append]. rewrite Hc. now apply IH.
Qed.

(** And only such a head. *)
Lemma match_at_lit_inv {A} (w s : string) (k : string -> option A) (x : A) :
  Text.match_at (Text.lit w) s k = Some x ->
  exists mid rest,
    s = (mid ++ rest)%string /\ Text.ci_equal w mid = true /\ k rest = Some x.
Proof.
  revert s. induction w as [|c w IH]; intros s Hm.
  - exists ""%string, s. auto.
  - cbn [Text.lit Text.match_at] in Hm. destruct s as [|d s]; [discriminate|].
    destruct (Text.ci_eqb c d) eqn:Hc; [|discriminate].
    apply IH in Hm as (mid & rest & -> & Hw & Hk).
    exists (String d mid), rest. cbn. rewrite Hc, Hw. auto.
Qed.

Lemma match_prefix_lit_iff (w s : string) :
  Text.match_prefix (Text.lit w) s <> None
  <-> exists mid rest, s = (mid ++ rest)%string /\ Text.ci_equal w mid = true.
Proof.
  unfold Text.match_prefix. split.
  - destruct (Text.match_at (Text.lit w) s Some) as [rest|] eqn:Hm; [|congruence].
    intros _. apply match_at_lit_inv in Hm as (mid & rest' & Hs & Hw & _).
    now exists mid, rest'.
  - intros (mid & rest & -> & Hw). rewrite (match_at_lit_head w mid rest Some Hw).
    discriminate.
Qed.

(** X12.  A pattern that is a plain word, searched with the [i] flag, is
    found exactly in the strings that contain the word up to the case of
    its letters. *)
Theorem search_word_iff_substring (w s : string) :
  Text.search (Text.lit w) s = true
  <-> exists pre mid post,
        s = (pre ++ mid ++ post)%string /\ Text.ci_equal w mid = true.
Proof.
  induction s as [|c s IH].
  - cbn [Text.search]. destruct (Text.match_prefix (Text.lit w) "") as [rest|] eqn:Hm.
    + split; [intros _ | reflexivity].
      assert (Hne : Text.match_prefix (Text.lit w) "" <> None) by congruence.
      apply match_prefix_lit_iff in Hne as (mid & post & Hs & Hw).
      now exists ""%string, mid, post.
    + split; [discriminate|]. intros (pre & mid & post & Hs & Hw). exfalso.
      destruct pre; [|discriminate Hs]. cbn in Hs.
      assert (Hne : Text.match_prefix (Text.lit w) "" <> None)
        by (apply match_prefix_lit_iff; now exists mid, post).
      congruence.
  - cbn [Text.search]. destruct (Text.match_prefix (Text.lit w) (String c s)) as [rest|] eqn:Hm.
    + split; [intros _ | reflexivity].
      assert (Hne : Text.match_prefix (Text.lit w) (String c s) <> None) by congruence.
      apply match_prefix_lit_iff in Hne as (mid & post & Hs & Hw).
      now exists ""%string, mid, post.
    + rewrite IH. split.
      * intros (pre & mid & post & -> & Hw). now exists (String c pre), mid, post.
      * intros (pre & mid & post & Hs & Hw). destruct pre as [|d pre].
        -- exfalso. cbn in Hs.
           assert (Hne : Text.match_prefix (Text.lit w) (String c s) <> None)
             by (apply match_prefix_lit_iff; now exists mid, post).
           congruence.
        -- cbn in Hs. injection Hs as _ ->. now exists pre, mid, post.
Qed.

(** X13.  The check [/^https?/i] accepts exactly the strings that begin
    with [http] in any case: neither the [s] nor [://] is required. *)
Theorem http_check_accepts_iff (repo : string) :
  Text.match_prefix Text.re_http repo <> None
  <-> exists scheme rest,
        repo = (scheme ++ rest)%string /\ Text.ci_equal "http" scheme = true.
Proof.
  unfold Text.match_prefix, Text.re_http. cbn [Text.match_at]. split.
  - destruct (Text.match_at (Text.lit "http") repo _) as [rest|] eqn:Hm; [|congruence].
    intros _. apply match_at_lit_inv in Hm as (mid & rest' & Hs & Hw & _).
    now exists mid, rest'.
  - intros (scheme & rest & -> & Hw).
    rewrite (match_at_lit_head "http" scheme rest _ Hw).
    destruct rest as [|c rest]; [discriminate|].
    destruct (Text.ci_eqb "s" c); discriminate.
Qed.

Lemma substitute_plain (t matched before after : string) :
  Text.contains_char "$" t = false ->
  Text.substitute t matched before after = t.
Proof.
  induction t as [|c t IH]; [reflexivity|]. cbn [Text.contains_char Text.substitute].
  intros H. apply orb_false_iff in H as [Hc Ht].
  rewrite Ascii.eqb_sym, Hc. now rewrite IH.
Qed.

Lemma substitute_app_plain (t1 t2 matched before after : string) :
  Text.contains_char "$" t1 = false ->
  Text.substitute (t1 ++ t2) matched before after
  = (t1 ++ Text.substitute t2 matched before after)%string.
Proof.
  induction t1 as [|c t1 IH]; [reflexivity|]. cbn [Text.contains_char].
  intros H. apply orb_false_iff in H as [Hc Ht].
  cbn [append Text.substitute]. rewrite Ascii.eqb_sym, Hc. now rewrite IH.
Qed.

Lemma contains_char_app (c : ascii) (a b : string) :
  Text.contains_char c (a ++ b)
  = Text.contains_char c a || Text.contains_char c b.
Proof.
  induction a as [|x a IH]; [reflexivity|]. cbn. now rewrite IH, orb_assoc.
Qed.

(** The expression with the slashes matches [http://] and [https://] in
    any case, and leaves what follows. *)
Lemma match_http_slashes (scheme rest : string) :
  Text.ci_equal "http" scheme || Text.ci_equal "https" scheme = true ->
  Text.match_prefix Text.re_http_slashes (scheme ++ "://" ++ rest) = Some rest.
Proof.
  intros H. apply orb_prop in H as [H|H].
  - unfold Text.match_prefix, Text.re_http_slashes. cbn [Text.match_at].
    rewrite (match_at_lit_head "http" scheme _ _ H). reflexivity.
  - destruct scheme as [|a [|b [|c [|d [|e [|f scheme]]]]]]; cbn in H;
      repeat match type of H with
             | (_ && _ = true) =>
                 let Hc := fresh "Hc" in apply andb_prop in H as [Hc H]
             end;
      try discriminate H.
    unfold Text.match_prefix, Text.re_http_slashes.
    cbn [Text.match_at Text.lit append].
    repeat match goal with
           | Hc : Text.ci_eqb _ _ = true |- _ => rewrite Hc; clear Hc
           end.
    reflexivity.
Qed.

(** A URL with the scheme http or https passes the check of [git_connect]. *)
Lemma match_http_scheme (scheme rest : string) :
  Text.ci_equal "http" scheme || Text.ci_equal "https" scheme = true ->
  Text.match_prefix Text.re_http (scheme ++ "://" ++ rest) <> None.
Proof.
  intros H. apply orb_prop in H as [H|H].
  - unfold Text.match_prefix, Text.re_http. cbn [Text.match_at].
    rewrite (match_at_lit_head "http" scheme _ _ H). discriminate.
  - destruct scheme as [|a [|b [|c [|d [|e [|f scheme]]]]]]; cbn in H;
      repeat match type of H with
             | (_ && _ = true) =>
                 let Hc := fresh "Hc" in apply andb_prop in H as [Hc H]
             end;
      try discriminate H.
    unfold Text.match_prefix, Text.re_http.
    cbn [Text.match_at Text.lit append].
    repeat match goal with
           | Hc : Text.ci_eqb _ _ = true |- _ => rewrite Hc; clear Hc
           end.
    discriminate.
Qed.

(** X14.  For a repository URL that begins with [http://] or [https://],
    in any case, and a token without a dollar sign, the URL that is cloned
    is [https://], the token, [@] and the rest of the URL: the scheme is
    always upgraded to https. *)
Theorem PATBasedRepo_inserts_token (scheme rest PAT : string) :
  Text.ci_equal "http" scheme || Text.ci_equal "https" scheme = true ->
  Text.contains_char "$" PAT = false ->
  Commands.PATBasedRepo (scheme ++ "://" ++ rest) PAT
  = ("https://" ++ PAT ++ "@" ++ rest)%string.
Proof.
  intros Hscheme Hplain. unfold Commands.PATBasedRepo, Text.replace_prefix.
  rewrite (match_http_slashes scheme rest Hscheme).
  rewrite substitute_plain.
  - now rewrite !string_app_assoc.
  - rewrite !contains_char_app, Hplain. reflexivity.
Qed.

Lemma PATBasedRepo_inserts_token_witness :
  Commands.PATBasedRepo ("HTTP" ++ "://" ++ "github.com/org/repo") "t0ken"
  = ("https://" ++ "t0ken" ++ "@" ++ "github.com/org/repo")%string.
Proof.
  apply (PATBasedRepo_inserts_token "HTTP" "github.com/org/repo" "t0ken"); reflexivity.
Defined.

(** X15.  The token is used as a replacement pattern: where it contains
    two dollar signs in a row, one of them is dropped from the URL that is
    cloned.  A URL that passes the check without [://] after the scheme is
    cloned as it is, without the token. *)
Theorem PATBasedRepo_edge_cases (repo PAT : string) :
  (forall rest a b,
      Text.match_prefix Text.re_http_slashes repo = Some rest ->
      PAT = (a ++ "$$" ++ b)%string ->
      Text.contains_char "$" a = false ->
      Text.contains_char "$" b = false ->
      Commands.PATBasedRepo repo PAT = ("https://" ++ a ++ "$" ++ b ++ "@" ++ rest)%string)
  /\ (Text.match_prefix Text.re_http_slashes repo = None ->
      Commands.PATBasedRepo repo PAT = repo).
Proof.
  split.
  - intros rest a b Hm -> Ha Hb. unfold Commands.PATBasedRepo, Text.replace_prefix.
    rewrite Hm.
    replace ("https://" ++ (a ++ "$$" ++ b) ++ "@")%string
      with (("https://" ++ a) ++ "$$" ++ (b ++ "@"))%string
      by (now rewrite !string_app_assoc).
    rewrite substitute_app_plain
      by (rewrite contains_char_app, Ha; reflexivity).
    cbn [append Text.substitute Ascii.eqb Bool.eqb].
    rewrite substitute_plain by (rewrite contains_char_app, Hb; reflexivity).
    rewrite !string_app_assoc. cbn [append]. now rewrite !string_app_assoc.
  - intros Hm. unfold Commands.PATBasedRepo, Text.replace_prefix. now rewrite Hm.
Qed.

Lemma PATBasedRepo_edge_cases_witness :
  Commands.PATBasedRepo "https://host/repo" "ab$$cd"
  = ("https://" ++ "ab" ++ "$" ++ "cd" ++ "@" ++ "host/repo")%string.
Proof.
  apply (proj1 (PATBasedRepo_edge_cases "https://host/repo" "ab$$cd")
           "host/repo"%string "ab"%string "cd"%string); reflexivity.
Defined.

Lemma split_nonempty (sep : ascii) (s : string) : Text.split sep s <> [].
Proof.
  destruct s as [|c s]; cbn [Text.split]; [discriminate|].
  destruct (Ascii.eqb c sep); [discriminate|].
  destruct (Text.split sep s); discriminate.
Qed.

Lemma concat_cons_cons (sep a b : string) (l : list string) :
  String.concat sep (a :: b :: l) = (a ++ sep ++ String.concat sep (b :: l))%string.
Proof. reflexivity. Qed.

(** X16.  Splitting at a separator loses nothing: no piece contains the
    separator, and the pieces joined with it give the string back. *)
Theorem split_then_join (sep : ascii) (s : string) :
  String.concat (String sep "") (Text.split sep s) = s
  /\ Forall (fun piece => Text.contains_char sep piece = false) (Text.split sep s).
Proof.
  induction s as [|c s [IHjoin IHpieces]].
  - split; [reflexivity | repeat constructor].
  - cbn [Text.split]. pose proof (split_nonempty sep s) as Hne.
    destruct (Ascii.eqb c sep) eqn:Hc.
    + apply Ascii.eqb_eq in Hc as ->. split.
      * destruct (Text.split sep s) as [|p ps]; [contradiction|].
        rewrite concat_cons_cons, IHjoin. reflexivity.
      * constructor; [reflexivity | exact IHpieces].
    + destruct (Text.split sep s) as [|p ps]; [contradiction|]. split.
      * destruct ps as [|q ps].
        -- cbn [String.concat] in *. now rewrite IHjoin.
        -- rewrite concat_cons_cons in *. now rewrite <- IHjoin.
      * inversion IHpieces as [|? ? Hp Hps]; subst. constructor; [|exact Hps].
        cbn [Text.contains_char]. rewrite Ascii.eqb_sym, Hc. exact Hp.
Qed.

Lemma last_piece_cons (p q : string) (ps : list string) :
  Text.last_piece (p :: q :: ps) = Text.last_piece (q :: ps).
Proof. reflexivity. Qed.

(** The last piece is what follows the last separator. *)
Lemma split_last_piece (sep : ascii) (s : string) :
  exists before,
    s = (before ++ Text.last_piece (Text.split sep s))%string
    /\ Text.contains_char sep (Text.last_piece (Text.split sep s)) = false
    /\ (before = ""%string \/ exists b, before = (b ++ String sep "")%string)
    /\ (before = ""%string <-> List.length (Text.split sep s) = 1%nat).
Proof.
  induction s as [|c s (before & Hs & Hno & Hend & Hone)].
  - exists ""%string. cbn. repeat split; auto.
  - cbn [Text.split]. pose proof (split_nonempty sep s) as Hne.
    destruct (Ascii.eqb c sep) eqn:Hc.
    + apply Ascii.eqb_eq in Hc as ->.
      destruct (Text.split sep s) as [|p ps] eqn:Hsplit; [contradiction|].
      rewrite last_piece_cons. exists (String sep before). repeat split.
      * cbn [append]. now rewrite <- Hs.
      * exact Hno.
      * right. destruct Hend as [-> | (b & ->)].
        -- now exists ""%string.
        -- now exists (String sep b).
      * discriminate.
      * cbn [List.length]. lia.
    + destruct (Text.split sep s) as [|p [|q ps]] eqn:Hsplit; [contradiction| |].
      * assert (Hb : before = ""%string) by now apply Hone.
        subst before. cbn in Hs. exists ""%string.
        cbn [Text.last_piece last append Text.contains_char] in *.
        rewrite Ascii.eqb_sym, Hc, Hno, <- Hs. repeat split; auto.
      * rewrite last_piece_cons in *.
        assert (Hb : before <> ""%string)
          by (intros Hb; apply Hone in Hb; cbn in Hb; lia).
        exists (String c before). repeat split.
        -- cbn [append]. now rewrite <- Hs.
        -- exact Hno.
        -- right. destruct Hend as [-> | (b & ->)]; [contradiction|].
           now exists (String c b).
        -- discriminate.
        -- cbn [List.length]. lia.
Qed.

Lemma split_trailing_separator (sep : ascii) (s : string) :
  Text.split sep (s ++ String sep "") = (Text.split sep s ++ [""%string])%list.
Proof.
  induction s as [|c s IH].
  - cbn. now rewrite Ascii.eqb_refl.
  - cbn [append Text.split]. rewrite IH. pose proof (split_nonempty sep s) as Hne.
    destruct (Ascii.eqb c sep); [reflexivity|].
    destruct (Text.split sep s) as [|p ps]; [contradiction | reflexivity].
Qed.

(** X17.  The directory name [git_connect] pulls in is what follows the
    last slash of the URL: it contains no slash, and the URL is a part that
    is empty or ends with a slash, followed by it.  For a URL that ends
    with a slash it is the empty string. *)
Theorem repoName_follows_last_slash (url : string) :
  (exists before,
      url = (before ++ Commands.repoName url)%string
      /\ Text.contains_char "/" (Commands.repoName url) = false
      /\ (before = ""%string \/ exists b, before = (b ++ "/")%string))
  /\ Commands.repoName (url ++ "/") = ""%string.
Proof.
  split.
  - destruct (split_last_piece "/" url) as (before & Hs & Hno & Hend & _).
    exists before. auto.
  - unfold Commands.repoName, Text.last_piece.
    rewrite split_trailing_separator. apply last_last.
Qed.

(** * The commands *)

Section CommandsFacts.

Import Commands.

Local Open Scope string_scope.

Lemma until_settled_all (tr : list Download.event) :
  forallb (fun ev => negb (Download.settles ev)) tr = true -> until_settled tr = tr.
Proof.
  induction tr as [|ev tr IH]; [reflexivity|]. cbn. intros H.
  apply andb_prop in H as [Hev Htr]. apply negb_true_iff in Hev.
  now rewrite Hev, IH.
Qed.

Lemma until_settled_first (pre post : list Download.event) (ev : Download.event) :
  forallb (fun ev => negb (Download.settles ev)) pre = true ->
  Download.settles ev = true ->
  until_settled (pre ++ ev :: post) = (pre ++ [ev])%list.
Proof.
  induction pre as [|x pre IH]; cbn; intros Hpre Hev.
  - now rewrite Hev.
  - apply andb_prop in Hpre as [Hx Hpre]. apply negb_true_iff in Hx.
    now rewrite Hx, IH.
Qed.

(** The first settling event of a trace is the only one. *)
Lemma first_settling_unique
  (pre pre' post post' : list Download.event) (ev ev' : Download.event) :
  (pre ++ ev :: post = pre' ++ ev' :: post')%list ->
  forallb (fun ev => negb (Download.settles ev)) pre = true ->
  forallb (fun ev => negb (Download.settles ev)) pre' = true ->
  Download.settles ev = true ->
  Download.settles ev' = true ->
  ev = ev'.
Proof.
  revert pre'. induction pre as [|x pre IH]; intros [|y pre'] Heq Hpre Hpre' Hev Hev';
    cbn in *.
  - now injection Heq.
  - injection Heq as -> _. rewrite Hev in Hpre'. discriminate Hpre'.
  - injection Heq as -> _. rewrite Hev' in Hpre. discriminate Hpre.
  - injection Heq as _ Heq. apply andb_prop in Hpre as [_ Hpre].
    apply andb_prop in Hpre' as [_ Hpre']. now apply (IH pre').
Qed.

(** The four ways an awaited download gets on; in each the console has
    gained progress lines and nothing else. *)
Lemma await_download_cases (tr : list Download.event) (c : Process.console) :
  exists lines,
    let c' := Process.mkConsole
                (Process.info_stream c ++ map Process.PText lines)%list
                (Process.error_stream c) in
    (await_download tr c = (c', Task.Returns tt) /\ Download.completes tr)
    \/ (exists err, await_download tr c = (c', Task.Throws err) /\ Fetch.fails_with tr err)
    \/ (await_download tr c = (c', Task.Stalls)
        /\ forallb (fun ev => negb (Download.settles ev)) tr = true)
    \/ (exists err,
          await_download tr c = (c', Task.Crashes err) /\ Fetch.crashes_with tr err).
Proof.
  unfold await_download.
  destruct (first_settling tr) as [Hall | (pre & ev & post & -> & Hpre & Hev)].
  - rewrite (until_settled_all tr Hall).
    destruct (run_total tr Download.init) as [st Hrun].
    unfold Download.downloadFile. rewrite Hrun. exists (Download.info st).
    right. right. left. split; [|exact Hall].
    destruct (run_unsettling tr Hall _ _ Hrun) as [Hset Hlive].
    now rewrite Hset, Hlive.
  - rewrite (until_settled_first pre post ev Hpre Hev).
    destruct (run_total (pre ++ [ev]) Download.init) as [st Hrun].
    unfold Download.downloadFile. rewrite Hrun. exists (Download.info st).
    apply run_app_inv in Hrun as (mid & Hmid & Hlast).
    apply (run_unsettling pre Hpre) in Hmid as [Hmid Hlive].
    cbn [Download.run] in Hlast. unfold Download.on_event in Hlast.
    rewrite Hlive in Hlast. cbn [Download.crashed Download.init] in Hlast.
    destruct ev; try discriminate Hev; cbn in Hlast; injection Hlast as <-;
      cbn [Download.settled Download.crashed]; rewrite ?Hmid; cbn.
    + left. split; [reflexivity | now exists pre, post].
    + right. left. exists err. split; [reflexivity | now exists pre, post].
    + right. right. right. exists err. split; [reflexivity | now exists pre, post].
Qed.

(** Unfolds the plumbing of a command down to pairs of console and status. *)
Ltac step_task :=
  unfold Task.bind, Task.catch, Task.info, Task.log_error, Task.exit, Task.of_proc,
    Task.lift, Task.await, Task.ret, Task.throw, Process.exit, Process.bind,
    Process.console_info, Process.console_error, Process.process_exit, Process.ret,
    Process.lift, Commands.msg;
  cbn [Process.truthy Process.message_text Process.as_printed negb String.eqb
       Ascii.eqb Bool.eqb Z.eqb fst snd Process.info_stream Process.error_stream].

(** Closes a case of an equivalence whose left side has been computed. *)
Ltac close_case :=
  split;
  [ first [ discriminate | intros _; eauto 12 ]
  | first [ reflexivity
          | intros; repeat match goal with
                           | H : exists _, _ |- _ => destruct H
                           | H : _ /\ _ |- _ => destruct H
                           end; congruence ] ].

(** X18.  [verify_access_token] ends with code 0 exactly when
    [ACCESS_TOKEN_SECRET] is set to a non-empty string; otherwise, for an
    unset or empty variable, it writes that the variable is not set to the
    error stream and ends with code 1. *)
Theorem verify_access_token_outcome (h : Commands.host) (c : Process.console) :
  (forall s,
      Commands.ACCESS_TOKEN_SECRET h = Some s -> s <> "" ->
      Commands.verify_access_token h c
      = (Process.mkConsole
           (Process.info_stream c
              ++ [Process.PText "Verifying personal access token in $ACCESS_TOKEN_SECRET...";
                  Process.PText "Verified presence of $ACCESS_TOKEN_SECRET in environment"])%list
           (Process.error_stream c),
         Task.Exits 0))
  /\ (Commands.ACCESS_TOKEN_SECRET h = None \/ Commands.ACCESS_TOKEN_SECRET h = Some "" ->
      Commands.verify_access_token h c
      = (Process.mkConsole
           (Process.info_stream c
              ++ [Process.PText "Verifying personal access token in $ACCESS_TOKEN_SECRET..."])%list
           (Process.error_stream c
              ++ [Process.PText "$ACCESS_TOKEN_SECRET not set in environment"])%list,
         Task.Exits 1)).
Proof.
  unfold Commands.verify_access_token. split.
  - intros s -> Hs. cbn [env_value Helpers.truthy_value]. unfold Helpers.nonempty.
    apply String.eqb_neq in Hs. rewrite Hs. step_task. now rewrite <- app_assoc.
  - intros [-> | ->]; reflexivity.
Qed.

Lemma verify_access_token_outcome_witness :
  Commands.verify_access_token
    (Commands.mkHost None None "" "" "" (fun _ => None) (fun s => s)
       (fun _ _ => Promise.Pending) (fun _ _ _ => []) (fun _ => Releases.AxiosRejected
                                                          (JS.mkExn JS.PlainError ""))
       (fun _ _ => []) (fun _ => "") (fun _ => ""))
    (Process.mkConsole [] [])
  = (Process.mkConsole
       ([] ++ [Process.PText "Verifying personal access token in $ACCESS_TOKEN_SECRET..."])%list
       ([] ++ [Process.PText "$ACCESS_TOKEN_SECRET not set in environment"])%list,
     Task.Exits 1).
Proof.
  apply (proj2 (verify_access_token_outcome
                  (Commands.mkHost None None "" "" "" (fun _ => None) (fun s => s)
                     (fun _ _ => Promise.Pending) (fun _ _ _ => [])
                     (fun _ => Releases.AxiosRejected (JS.mkExn JS.PlainError ""))
                     (fun _ _ => []) (fun _ => "") (fun _ => ""))
                  (Process.mkConsole [] []))).
  left. reflexivity.
Defined.

(** X19.  [verify_repo] ends with code 0 exactly when [REPO] is set to a
    non-empty string; otherwise it writes that the variable is not set to
    the error stream and ends with code 1.  The value is not examined
    further: any non-empty string passes. *)
Theorem verify_repo_outcome (h : Commands.host) (c : Process.console) :
  (forall s,
      Commands.REPO h = Some s -> s <> "" ->
      Commands.verify_repo h c
      = (Process.mkConsole
           (Process.info_stream c
              ++ [Process.PText "Verifying HLD/Manifest repository URL in $REPO...";
                  Process.PText "Verified presence of $REPO in environment"])%list
           (Process.error_stream c),
         Task.Exits 0))
  /\ (Commands.REPO h = None \/ Commands.REPO h = Some "" ->
      Commands.verify_repo h c
      = (Process.mkConsole
           (Process.info_stream c
              ++ [Process.PText "Verifying HLD/Manifest repository URL in $REPO..."])%list
           (Process.error_stream c ++ [Process.PText "$REPO not set in environment"])%list,
         Task.Exits 1)).
Proof.
  unfold Commands.verify_repo. split.
  - intros s -> Hs. cbn [env_value Helpers.truthy_value]. unfold Helpers.nonempty.
    apply String.eqb_neq in Hs. rewrite Hs. step_task. now rewrite <- app_assoc.
  - intros [-> | ->]; reflexivity.
Qed.

Lemma verify_repo_outcome_witness :
  Commands.verify_repo
    (Commands.mkHost None (Some "not a url") "" "" "" (fun _ => None) (fun s => s)
       (fun _ _ => Promise.Pending) (fun _ _ _ => [])
       (fun _ => Releases.AxiosRejected (JS.mkExn JS.PlainError ""))
       (fun _ _ => []) (fun _ => "") (fun _ => ""))
    (Process.mkConsole [] [])
  = (Process.mkConsole
       ([] ++ [Process.PText "Verifying HLD/Manifest repository URL in $REPO...";
               Process.PText "Verified presence of $REPO in environment"])%list
       [],
     Task.Exits 0).
Proof.
  apply (proj1 (verify_repo_outcome
                  (Commands.mkHost None (Some "not a url") "" "" "" (fun _ => None)
                     (fun s => s) (fun _ _ => Promise.Pending) (fun _ _ _ => [])
                     (fun _ => Releases.AxiosRejected (JS.mkExn JS.PlainError ""))
                     (fun _ _ => []) (fun _ => "") (fun _ => ""))
                  (Process.mkConsole [] [])) "not a url").
  - reflexivity.
  - discriminate.
Defined.

(** X20.  [init] ends with code 0 when the copy of the current directory
    to the home directory succeeds; when the copy fails it writes the error
    and a message to the error stream and ends with code 1. *)
Theorem init_outcome (h : Commands.host) (c : Process.console) :
  (Commands.copy h (Commands.cwd h) (Commands.homedir h) = Promise.Resolved tt ->
   Commands.init h c
   = (Process.mkConsole
        (Process.info_stream c
           ++ [Process.PText ("Copying contents of " ++ Commands.cwd h ++ " to "
                                ++ Commands.homedir h);
               Process.PText ("Completed copying files project files "
                                ++ Commands.homedir h)])%list
        (Process.error_stream c),
      Task.Exits 0))
  /\ (forall err,
        Commands.copy h (Commands.cwd h) (Commands.homedir h) = Promise.Rejected err ->
        Commands.init h c
        = (Process.mkConsole
             (Process.info_stream c
                ++ [Process.PText ("Copying contents of " ++ Commands.cwd h ++ " to "
                                     ++ Commands.homedir h)])%list
             (Process.error_stream c
                ++ [Process.PError err;
                    Process.PText ("Error copying files in current directory to "
                                     ++ Commands.homedir h)])%list,
           Task.Exits 1)).
Proof.
  unfold Commands.init. split.
  - intros Hcopy. step_task. rewrite Hcopy. cbn. now rewrite <- app_assoc.
  - intros err Hcopy. step_task. rewrite Hcopy. cbn. now rewrite <- !app_assoc.
Qed.

Lemma init_outcome_witness :
  Commands.init
    (Commands.mkHost None None "" "/home/ci" "/work" (fun _ => None) (fun s => s)
       (fun _ _ => Promise.Resolved tt) (fun _ _ _ => [])
       (fun _ => Releases.AxiosRejected (JS.mkExn JS.PlainError ""))
       (fun _ _ => []) (fun _ => "") (fun _ => ""))
    (Process.mkConsole [] [])
  = (Process.mkConsole
       ([] ++ [Process.PText ("Copying contents of " ++ "/work" ++ " to " ++ "/home/ci");
               Process.PText ("Completed copying files project files " ++ "/home/ci")])%list
       [],
     Task.Exits 0).
Proof.
  apply (proj1 (init_outcome
                  (Commands.mkHost None None "" "/home/ci" "/work" (fun _ => None)
                     (fun s => s) (fun _ _ => Promise.Resolved tt) (fun _ _ _ => [])
                     (fun _ => Releases.AxiosRejected (JS.mkExn JS.PlainError ""))
                     (fun _ _ => []) (fun _ => "") (fun _ => ""))
                  (Process.mkConsole [] []))).
  reflexivity.
Defined.

Lemma latest_tag_unique (h : Commands.host) (url tag tag' : string) :
  latest_tag h url tag -> latest_tag h url tag' -> tag = tag'.
Proof.
  intros (resp & props & Hget & _ & Hdata & Hlook)
         (resp' & props' & Hget' & _ & Hdata' & Hlook').
  assert (resp' = resp) as -> by congruence.
  assert (props' = props) as -> by congruence. congruence.
Qed.

(** [getLatestGitTag] as a command sees it. *)
Lemma getLatestGitTag_task_cases (h : Commands.host) (url : string) (c : Process.console) :
  (exists tag,
      latest_tag h url tag
      /\ Releases.getLatestGitTag (JSON_stringify h) (axios_get h) url c
         = (c, Process.Returned (JS.VString tag)))
  \/ ((forall tag, ~ latest_tag h url tag)
      /\ ((exists e,
              Releases.getLatestGitTag (JSON_stringify h) (axios_get h) url c
              = (c, Process.Thrown e))
          \/ exists m,
               Releases.getLatestGitTag (JSON_stringify h) (axios_get h) url c
               = (Process.mkConsole (Process.info_stream c)
                    (Process.error_stream c ++ [Process.PText m])%list,
                  Process.Exited 1))).
Proof.
  destruct (getLatestGitTag_cases (JSON_stringify h) (axios_get h) url c)
    as [(err & Hget & Hrun) | [(resp & Hget & Hst & Hrun)
        | [(resp & e & Hget & Hst & Hnot & Hrun)
          | (resp & props & s & Hget & Hst & Hdata & Hlook & Hrun)]]].
  - right. split; [|left; now exists err].
    intros tag (resp & props & Hget' & _). congruence.
  - right. split; [|right; eexists; exact Hrun].
    intros tag (resp' & props & Hget' & Hst' & _). congruence.
  - right. split; [|left; now exists e].
    intros tag (resp' & props & Hget' & _ & Hdata & Hlook). apply Hnot.
    assert (resp' = resp) as -> by congruence. now exists props, tag.
  - left. exists s. split; [now exists resp, props | exact Hrun].
Qed.

Lemma getFabrikateVersion_task_cases (h : Commands.host) (c : Process.console) :
  (exists tag,
      latest_tag h Releases.fabReleases tag
      /\ Releases.getFabrikateVersion (JSON_stringify h) (axios_get h) c
         = (c, Process.Returned (JS.VString tag)))
  \/ ((forall tag, ~ latest_tag h Releases.fabReleases tag)
      /\ exists p errs,
           Releases.getFabrikateVersion (JSON_stringify h) (axios_get h) c
           = (Process.mkConsole (Process.info_stream c)
                (Process.error_stream c ++ p :: errs)%list,
              Process.Exited 1)).
Proof.
  rewrite getFabrikateVersion_unfold. unfold Process.catch.
  destruct (getLatestGitTag_task_cases h Releases.fabReleases c)
    as [(tag & Htag & Hrun) | (Hnone & [(e & Hrun) | (m & Hrun)])]; rewrite Hrun.
  - left. now exists tag.
  - right. split; [exact Hnone|]. do 2 eexists. cbn. rewrite <- app_assoc. reflexivity.
  - right. split; [exact Hnone|]. now exists (Process.PText m), [].
Qed.


(** When the write stream fails first, the awaited download ends the
    process with that error, having logged progress lines only. *)
Lemma await_download_crashes
  (tr : list Download.event) (c : Process.console) (e : JS.exn) :
  Fetch.crashes_with tr e ->
  exists lines,
    await_download tr c
    = (Process.mkConsole (Process.info_stream c ++ map Process.PText lines)%list
         (Process.error_stream c),
       Task.Crashes e).
Proof.
  intros (pre & post & Htr & Hpre).
  destruct (await_download_cases tr c) as [lines Hcases]. exists lines. cbn zeta in *.
  destruct Hcases
    as [[Hrun (pre' & post' & Htr' & Hpre')]
       | [(err & Hrun & pre' & post' & Htr' & Hpre')
         | [[Hrun Hall] | (err & Hrun & pre' & post' & Htr' & Hpre')]]].
  - rewrite Htr in Htr'.
    pose proof (first_settling_unique _ _ _ _ _ _ Htr' Hpre Hpre' eq_refl eq_refl) as H.
    discriminate H.
  - rewrite Htr in Htr'.
    pose proof (first_settling_unique _ _ _ _ _ _ Htr' Hpre Hpre' eq_refl eq_refl) as H.
    discriminate H.
  - rewrite Htr, forallb_app in Hall. apply andb_prop in Hall as [_ Hall].
    discriminate Hall.
  - rewrite Htr in Htr'.
    pose proof (first_settling_unique _ _ _ _ _ _ Htr' Hpre Hpre' eq_refl eq_refl) as H.
    injection H as ->. exact Hrun.
Qed.

(** Closes a leaf of [ends_in] once the command has been computed. *)
Ltac close_well :=
  unfold ends_in; cbn [fst snd Process.error_stream];
  first
    [ left; split; reflexivity
    | right; left; split; [reflexivity | rewrite ?length_app; cbn [List.length]; lia]
    | right; right; left; split; [reflexivity | split; [exact I | reflexivity]]
    | right; right; right; left; split; [reflexivity |];
      unfold never_settles;
      first [ left; do 2 eexists; eassumption
            | right; left; do 3 eexists; eassumption
            | right; right; do 2 eexists; eassumption ]
    | right; right; right; right; eexists; split; [reflexivity |];
      unfold write_stream_fails; do 2 eexists; eassumption ].




Lemma helm_init_summary (h : Commands.host) (c : Process.console) :
  (snd (Commands.helm_init h c) = Task.Exits 0
   <-> exists path r1 r2,
         Commands.which h "helm" = Some path
         /\ Spawn.spawn (Commands.child h "helm" ["version"] None) = Promise.Resolved r1
         /\ Text.search Text.re_semver_v2 (Spawn.stdCombined r1) = true
         /\ Spawn.spawn (Commands.child h "helm" ["init"; "--client-only"] None)
            = Promise.Resolved r2
         /\ Spawn.code r2 = 0)
  /\ ends_in h c False (fun _ => False) (helm_init h c).
Proof.
  unfold Commands.helm_init.
  destruct (Commands.which h "helm") as [path|] eqn:Hwhich;
    [|step_task; split; [close_case | close_well]].
  destruct (Spawn.spawn (Commands.child h "helm" ["version"] None))
    as [|r1|e1] eqn:H1;
    [ step_task; split; [close_case | close_well] |
    | step_task; split; [close_case | close_well] ].
  destruct (Text.search Text.re_semver_v2 (Spawn.stdCombined r1)) eqn:Hv2;
    [|step_task; rewrite Hv2; step_task; split; [close_case | close_well]].
  destruct (Spawn.spawn (Commands.child h "helm" ["init"; "--client-only"] None))
    as [|r2|e2] eqn:H2;
    [ step_task; rewrite Hv2; step_task; split; [close_case | close_well] |
    | step_task; rewrite Hv2; step_task; split; [close_case | close_well] ].
  destruct (Z.eqb_spec (Spawn.code r2) 0) as [Hcode|Hcode].
  - step_task. rewrite Hv2. step_task. rewrite Hcode. step_task.
    split; [close_case | close_well].
  - step_task. rewrite Hv2. step_task.
    apply Z.eqb_neq in Hcode. rewrite Hcode. step_task.
    apply Z.eqb_neq in Hcode. split; [close_case | close_well].
Qed.

Lemma get_fab_version_summary (h : Commands.host) (c : Process.console) :
  (forall tag,
      latest_tag h Releases.fabReleases tag ->
      get_fab_version h c
      = (if String.eqb tag "" then c
         else Process.mkConsole (Process.info_stream c ++ [Process.PText tag])%list
                (Process.error_stream c),
         Task.Exits 0))
  /\ (snd (get_fab_version h c) = Task.Exits 0
      <-> exists tag, latest_tag h Releases.fabReleases tag)
  /\ ends_in h c False (fun _ => False) (get_fab_version h c).
Proof.
  unfold get_fab_version. step_task.
  destruct (getLatestGitTag_task_cases h Releases.fabReleases c)
    as [(tag & Htag & Hrun) | (Hnone & [(e & Hrun) | (m & Hrun)])];
    unfold Releases.fabReleases in Hrun; rewrite Hrun; cbn.
  - split; [|split].
    + intros tag' Htag'. rewrite (latest_tag_unique h _ _ _ Htag' Htag).
      unfold Process.bind. cbn. destruct (String.eqb tag ""); [now destruct c | reflexivity].
    + unfold Process.bind. cbn. destruct (String.eqb tag ""); cbn; split; eauto.
    + unfold Process.bind. cbn. destruct (String.eqb tag ""); cbn; close_well.
  - split; [|split].
    + intros tag Htag. now apply Hnone in Htag.
    + split; [discriminate | intros (tag & Htag); now apply Hnone in Htag].
    + close_well.
  - split; [|split].
    + intros tag Htag. now apply Hnone in Htag.
    + split; [discriminate | intros (tag & Htag); now apply Hnone in Htag].
    + close_well.
Qed.

(** Names the next lookup or download in the goal and splits on how it ends. *)
Ltac next_lookup h tag Htag Hnone :=
  match goal with
  | |- context [Releases.getLatestGitTag _ _ ?u ?c1] =>
      let e := fresh "e" in
      let m := fresh "m" in
      let Hrun := fresh "Hrun" in
      destruct (getLatestGitTag_task_cases h u c1)
        as [(tag & Htag & Hrun) | (Hnone & [(e & Hrun) | (m & Hrun)])];
      rewrite Hrun; clear Hrun
  | |- context [Releases.getFabrikateVersion _ _ ?c1] =>
      let p := fresh "p" in
      let errs := fresh "errs" in
      let Hrun := fresh "Hrun" in
      destruct (getFabrikateVersion_task_cases h c1)
        as [(tag & Htag & Hrun) | (Hnone & p & errs & Hrun)];
      rewrite Hrun; clear Hrun
  end.




(** The parts of a leaf of [git_connect] that do not say how it returns. *)
Ltac git_rest :=
  split;
  [ intros code Hcode; first [discriminate Hcode | now injection Hcode as <-]
  | split;
    [ close_well
    | let repo0 := fresh "repo" in
      let pat0 := fresh "pat" in
      let H1 := fresh "H" in
      let H2 := fresh "H" in
      intros repo0 pat0 H1 ? H2 ? ?;
      first
        [ discriminate H1
        | discriminate H2
        | injection H1 as <-;
          first
            [ contradiction
            | congruence
            | discriminate H2
            | injection H2 as <-;
              first
                [ contradiction
                | congruence
                | repeat rewrite in_app_iff; cbn [In]; auto 10 ] ] ] ] ].

Ltac git_fails :=
  split;
  [ split;
    [ discriminate
    | intros (? & ? & ? & ? & H1 & ? & H2 & ? & ? & ? & ?);
      first
        [ discriminate H1
        | discriminate H2
        | injection H1 as <-;
          first
            [ contradiction
            | congruence
            | discriminate H2
            | injection H2 as <-; first [contradiction | congruence] ] ] ]
  | git_rest ].

Lemma git_connect_summary (h : Commands.host) (c : Process.console) :
  (snd (git_connect h c) = Task.Returns tt
   <-> exists repo pat r1 r2,
         REPO h = Some repo /\ repo <> ""
         /\ ACCESS_TOKEN_SECRET h = Some pat /\ pat <> ""
         /\ Text.match_prefix Text.re_http repo <> None
         /\ Spawn.spawn (child h "git" ["clone"; PATBasedRepo repo pat] None)
            = Promise.Resolved r1
         /\ Spawn.spawn
              (child h "git" ["pull"; "origin"; "master"]
                 (Some (resolve_path h (repoName (PATBasedRepo repo pat)))))
            = Promise.Resolved r2)
  /\ (forall code, snd (git_connect h c) = Task.Exits code -> code = 1)
  /\ ends_in h c True (fun _ => False) (git_connect h c)
  /\ (forall repo pat,
         REPO h = Some repo -> repo <> "" ->
         ACCESS_TOKEN_SECRET h = Some pat -> pat <> "" ->
         Text.match_prefix Text.re_http repo <> None ->
         In (Process.PText ("Cloning " ++ PATBasedRepo repo pat))
            (Process.info_stream (fst (git_connect h c)))).
Proof.
  unfold git_connect, Helpers.assertIsTruthyString.
  destruct (REPO h) as [repo|] eqn:Hrepo;
    cbn -[PATBasedRepo repoName append Text.match_prefix]; [|git_fails].
  destruct (String.eqb_spec repo "") as [->|Hrne];
    [cbn -[PATBasedRepo repoName append Text.match_prefix]; git_fails|].
  assert (Hr : Helpers.nonempty repo = true)
    by (unfold Helpers.nonempty; apply String.eqb_neq in Hrne; now rewrite Hrne).
  rewrite !Hr.
  destruct (ACCESS_TOKEN_SECRET h) as [pat|] eqn:Hpat;
    cbn -[PATBasedRepo repoName append Text.match_prefix]; [|git_fails].
  destruct (String.eqb_spec pat "") as [->|Hpne];
    [cbn -[PATBasedRepo repoName append Text.match_prefix]; git_fails|].
  assert (Hp : Helpers.nonempty pat = true)
    by (unfold Helpers.nonempty; apply String.eqb_neq in Hpne; now rewrite Hpne).
  rewrite !Hp.
  destruct (Text.match_prefix Text.re_http repo) as [rest|] eqn:Hhttp;
    cbn -[PATBasedRepo repoName append Text.match_prefix]; [|git_fails].
  destruct (Spawn.spawn (child h "git" ["clone"; PATBasedRepo repo pat] None))
    as [|r1|e1] eqn:Hclone;
    cbn -[PATBasedRepo repoName append Text.match_prefix]; [git_fails | | git_fails].
  destruct (Spawn.spawn
              (child h "git" ["pull"; "origin"; "master"]
                 (Some (resolve_path h (repoName (PATBasedRepo repo pat))))))
    as [|r2|e2] eqn:Hpull;
    cbn -[PATBasedRepo repoName append Text.match_prefix]; [git_fails | | git_fails].
  split; [|git_rest]. split; [intros _ | reflexivity].
  exists repo, pat, r1, r2. repeat split; auto; congruence.
Qed.

(** X21.  [helm_init] ends with code 0 exactly when a helm executable is
    found, [helm version] runs and its output matches the pattern of a
    version 2, and [helm init --client-only] runs and exits with code 0.
    The exit code of [helm version] itself plays no part. *)
Theorem helm_init_succeeds_iff (h : Commands.host) (c : Process.console) :
  snd (Commands.helm_init h c) = Task.Exits 0
  <-> exists path r1 r2,
        Commands.which h "helm" = Some path
        /\ Spawn.spawn (Commands.child h "helm" ["version"] None) = Promise.Resolved r1
        /\ Text.search Text.re_semver_v2 (Spawn.stdCombined r1) = true
        /\ Spawn.spawn (Commands.child h "helm" ["init"; "--client-only"] None)
           = Promise.Resolved r2
        /\ Spawn.code r2 = 0.
Proof. exact (proj1 (helm_init_summary h c)). Qed.

(** X22.  [get_fab_version] ends with code 0 exactly when the Fabrikate
    releases page answers 200 with a string [tag_name]; it then writes the
    tag to the informational stream, unless the tag is the empty string,
    in which case it writes nothing. *)
Theorem get_fab_version_outcome (h : Commands.host) (c : Process.console) :
  (forall tag,
      latest_tag h Releases.fabReleases tag ->
      get_fab_version h c
      = (if String.eqb tag "" then c
         else Process.mkConsole (Process.info_stream c ++ [Process.PText tag])%list
                (Process.error_stream c),
         Task.Exits 0))
  /\ (snd (get_fab_version h c) = Task.Exits 0
      <-> exists tag, latest_tag h Releases.fabReleases tag).
Proof.
  destruct (get_fab_version_summary h c) as (Hprint & Hiff & _). now split.
Qed.



(** X25.  [git_connect] returns normally exactly when [REPO] and
    [ACCESS_TOKEN_SECRET] are non-empty, [REPO] begins with http, and both
    [git clone] and [git pull] could be started and report an exit: the
    exit codes of git are not examined.  When it ends the process itself,
    the code is 1; it never ends it with code 0. *)
Theorem git_connect_returns_iff (h : Commands.host) (c : Process.console) :
  (snd (git_connect h c) = Task.Returns tt
   <-> exists repo pat r1 r2,
         REPO h = Some repo /\ repo <> ""
         /\ ACCESS_TOKEN_SECRET h = Some pat /\ pat <> ""
         /\ Text.match_prefix Text.re_http repo <> None
         /\ Spawn.spawn (child h "git" ["clone"; PATBasedRepo repo pat] None)
            = Promise.Resolved r1
         /\ Spawn.spawn
              (child h "git" ["pull"; "origin"; "master"]
                 (Some (resolve_path h (repoName (PATBasedRepo repo pat)))))
            = Promise.Resolved r2)
  /\ (forall code, snd (git_connect h c) = Task.Exits code -> code = 1).
Proof.
  destruct (git_connect_summary h c) as (Hiff & Hcode & _). now split.
Qed.

(** X26.  When [REPO] begins with [http://] or [https://], in any case,
    and the access token is a non-empty string without a dollar sign,
    [git_connect] writes the line [Cloning https://], the token, [@] and the
    rest of the URL to the informational stream, whatever happens
    afterwards: the token is logged in clear. *)
Theorem git_connect_logs_token
  (h : Commands.host) (c : Process.console) (scheme rest pat : string) :
  REPO h = Some (scheme ++ "://" ++ rest) ->
  Text.ci_equal "http" scheme || Text.ci_equal "https" scheme = true ->
  ACCESS_TOKEN_SECRET h = Some pat ->
  pat <> "" ->
  Text.contains_char "$" pat = false ->
  In (Process.PText ("Cloning https://" ++ pat ++ "@" ++ rest))
     (Process.info_stream (fst (git_connect h c))).
Proof.
  intros Hrepo Hscheme Hpat Hpne Hplain.
  destruct (git_connect_summary h c) as (_ & _ & _ & Hlog).
  specialize (Hlog (scheme ++ "://" ++ rest) pat Hrepo).
  assert (Hurl : PATBasedRepo (scheme ++ "://" ++ rest) pat
                 = "https://" ++ pat ++ "@" ++ rest).
  { unfold PATBasedRepo, Text.replace_prefix.
    rewrite (match_http_slashes scheme rest Hscheme), substitute_plain.
    - now rewrite !string_app_assoc.
    - rewrite !contains_char_app, Hplain. reflexivity. }
  rewrite Hurl in Hlog. apply Hlog.
  - destruct scheme; [discriminate Hscheme | discriminate].
  - exact Hpat.
  - exact Hpne.
  - now apply match_http_scheme.
Qed.

Lemma git_connect_logs_token_witness :
  In (Process.PText ("Cloning https://" ++ "s3cret" ++ "@" ++ "host/org/repo"))
     (Process.info_stream
        (fst (git_connect
                (Commands.mkHost (Some "s3cret") (Some ("HTTP" ++ "://" ++ "host/org/repo"))
                   "linux" "" "" (fun _ => None) (fun s => s)
                   (fun _ _ => Promise.Pending) (fun _ _ _ => [])
                   (fun _ => Releases.AxiosRejected (JS.mkExn JS.PlainError ""))
                   (fun _ _ => []) (fun _ => "") (fun _ => ""))
                (Process.mkConsole [] [])))).
Proof.
  apply (git_connect_logs_token
           (Commands.mkHost (Some "s3cret") (Some ("HTTP" ++ "://" ++ "host/org/repo"))
              "linux" "" "" (fun _ => None) (fun s => s)
              (fun _ _ => Promise.Pending) (fun _ _ _ => [])
              (fun _ => Releases.AxiosRejected (JS.mkExn JS.PlainError ""))
              (fun _ _ => []) (fun _ => "") (fun _ => ""))
           (Process.mkConsole [] []) "HTTP" "host/org/repo" "s3cret");
    first [reflexivity | discriminate].
Defined.


(** X28.  Of the names [process.platform] can have, only darwin and linux
    are recognised: on every other one, win32 included, both download
    commands write that the host OS cannot be determined and end with
    code 1, before any request is made. *)
Theorem downloads_reject_other_platforms
  (h : Commands.host) (c : Process.console) :
  In (platform h) node_platforms ->
  platform h <> "darwin" ->
  platform h <> "linux" ->
  download_fab h c
  = (Process.mkConsole (Process.info_stream c)
       (Process.error_stream c ++ [Process.PText "Unable to determine host OS"])%list,
     Task.Exits 1)
  /\ download_spk h c
     = (Process.mkConsole (Process.info_stream c)
          (Process.error_stream c ++ [Process.PText "Unable to determine host OS"])%list,
        Task.Exits 1).
Proof.
  intros Hin Hd Hl. unfold download_fab, download_spk.
  cbn [In node_platforms] in Hin.
  repeat (destruct Hin as [Hin | Hin];
          [ first [ now rewrite <- Hin in Hd
                  | now rewrite <- Hin in Hl
                  | rewrite <- Hin; split; reflexivity ] | ]).
  contradiction.
Qed.

Lemma downloads_reject_other_platforms_witness :
  download_fab
    (Commands.mkHost None None "win32" "" "" (fun _ => None) (fun s => s)
       (fun _ _ => Promise.Pending) (fun _ _ _ => [])
       (fun _ => Releases.AxiosRejected (JS.mkExn JS.PlainError ""))
       (fun _ _ => []) (fun _ => "") (fun _ => ""))
    (Process.mkConsole [] [])
  = (Process.mkConsole []
       ([] ++ [Process.PText "Unable to determine host OS"])%list,
     Task.Exits 1).
Proof.
  apply (proj1 (downloads_reject_other_platforms
                  (Commands.mkHost None None "win32" "" "" (fun _ => None) (fun s => s)
                     (fun _ _ => Promise.Pending) (fun _ _ _ => [])
                     (fun _ => Releases.AxiosRejected (JS.mkExn JS.PlainError ""))
                     (fun _ _ => []) (fun _ => "") (fun _ => ""))
                  (Process.mkConsole [] [])
                  ltac:(cbn; tauto) ltac:(discriminate) ltac:(discriminate))).
Defined.

(** X29.  When the write stream of the download fails before the download
    has completed or failed, [download_spk] and [download_fab] are ended by
    that error as an uncaught exception: no handler of the command runs,
    nothing is written to the error stream by the command, and the process
    does not end through [exit]. *)
Theorem download_write_failure_ends_process
  (h : Commands.host) (c : Process.console) (e : JS.exn) :
  (forall os tag,
      spk_host_platform (platform h) = Some os ->
      latest_tag h "https://api.github.com/repos/CatalystCode/spk/releases/latest" tag ->
      Fetch.crashes_with
        (request h
           ("https://github.com/CatalystCode/spk/releases/download/" ++ tag
              ++ "/spk-" ++ os)
           (resolve_path h "spk")) e ->
      snd (download_spk h c) = Task.Crashes e
      /\ Process.error_stream (fst (download_spk h c)) = Process.error_stream c)
  /\ (forall os tag,
        fab_host_platform (platform h) = Some os ->
        latest_tag h Releases.fabReleases tag ->
        Fetch.crashes_with
          (request h
             ("https://github.com/microsoft/fabrikate/releases/download/" ++ tag
                ++ "/fab-v" ++ tag ++ "-" ++ os ++ "-amd64.zip")
             (resolve_path h "fab.zip")) e ->
        snd (download_fab h c) = Task.Crashes e
        /\ Process.error_stream (fst (download_fab h c)) = Process.error_stream c).
Proof.
  split.
  - intros os tag Hos Htag Hfail. unfold download_spk. rewrite Hos.
    step_task. next_lookup h tag' Htag' Hnone.
    + rewrite (latest_tag_unique h _ _ _ Htag' Htag).
      cbn [Helpers.template_text]. step_task.
      match goal with
      | |- context [await_download ?tr ?c1] =>
          destruct (await_download_crashes tr c1 e Hfail) as [lines Hrun]; rewrite Hrun
      end.
      split; reflexivity.
    + now apply Hnone in Htag.
    + now apply Hnone in Htag.
  - intros os tag Hos Htag Hfail. unfold download_fab. rewrite Hos.
    step_task. next_lookup h tag' Htag' Hnone.
    + rewrite (latest_tag_unique h _ _ _ Htag' Htag).
      cbn [Helpers.template_text]. step_task.
      match goal with
      | |- context [await_download ?tr ?c1] =>
          destruct (await_download_crashes tr c1 e Hfail) as [lines Hrun]; rewrite Hrun
      end.
      split; reflexivity.
    + now apply Hnone in Htag.
Qed.

Lemma download_write_failure_ends_process_witness :
  snd (download_spk
         (Commands.mkHost None None "linux" "" "" (fun _ => None) (fun s => s)
            (fun _ _ => Promise.Pending) (fun _ _ _ => [])
            (fun _ => Releases.AxiosResolved
                        (Releases.mkAxiosResponse 200
                           (JS.VObject [("tag_name", JS.VString "v1")])))
            (fun _ _ => [Download.WriteError (JS.mkExn JS.PlainError "ENOENT")])
            (fun _ => "") (fun _ => ""))
         (Process.mkConsole [] []))
  = Task.Crashes (JS.mkExn JS.PlainError "ENOENT")
  /\ Process.error_stream
       (fst (download_spk
               (Commands.mkHost None None "linux" "" "" (fun _ => None) (fun s => s)
                  (fun _ _ => Promise.Pending) (fun _ _ _ => [])
                  (fun _ => Releases.AxiosResolved
                              (Releases.mkAxiosResponse 200
                                 (JS.VObject [("tag_name", JS.VString "v1")])))
                  (fun _ _ => [Download.WriteError (JS.mkExn JS.PlainError "ENOENT")])
                  (fun _ => "") (fun _ => ""))
               (Process.mkConsole [] [])))
     = [].
Proof.
  apply (proj1 (download_write_failure_ends_process
                  (Commands.mkHost None None "linux" "" "" (fun _ => None) (fun s => s)
                     (fun _ _ => Promise.Pending) (fun _ _ _ => [])
                     (fun _ => Releases.AxiosResolved
                                 (Releases.mkAxiosResponse 200
                                    (JS.VObject [("tag_name", JS.VString "v1")])))
                     (fun _ _ => [Download.WriteError (JS.mkExn JS.PlainError "ENOENT")])
                     (fun _ => "") (fun _ => ""))
                  (Process.mkConsole [] []) (JS.mkExn JS.PlainError "ENOENT"))
           "linux" "v1").
  - reflexivity.
  - eexists. eexists. repeat split; reflexivity.
  - exists [], []. split; reflexivity.
Defined.

End CommandsFacts.
